(** * Memento plugin of jQuery Sketchable: undo/redo history

    A shallow embedding of [src/jquery.sketchable.memento.js].  The private
    variables [stack] and [stpos] of [MementoCanvas], the canvas pixels, the
    plugin data [data.strokes] and the images whose [onload] has not fired
    yet make up the state; every method is a function from states to
    completions (normal, or an uncaught [TypeError] with the state as the
    statements executed before the throw left it). *)

From Stdlib Require Import ZArith Lia String.
From stdpp Require Import base decidable option list numbers strings gmap.

Local Open Scope Z_scope.

(** ** Values *)

(** [toDataURL()] returns a string; [Image.src] holds one. *)
Definition DataURL : Type := string.

(** A JS array is an object; a variable or a property holds a reference to
    it.  References are indices into the array store. *)
Definition ref : Type := nat.

(** The release event passed to [save]: only [evt.identifier] is read.
    Mouse events carry no identifier ([undefined], here [None]). *)
Record Event : Type := { identifier : option Z }.

(** The key event read by [keyManager]. *)
Record KeyEvent : Type := { ctrlKey : bool; shiftKey : bool; which : Z }.

(** One entry of [stack]: [{ image: ..., strokes: ... }]. *)
Record Snapshot : Type := { image : DataURL; strokes : ref }.

(** [stack[i]] for a JS number [i]: [undefined] out of range. *)
Definition js_index {A : Type} (l : list A) (i : Z) : option A :=
  if i <? 0 then None else l !! Z.to_nat i.

(** [evt && evt.identifier > 0]. *)
Definition is_continuation (evt : option Event) : bool :=
  match evt with
  | Some e =>
      match identifier e with
      | Some n => 0 <? n
      | None => false
      end
  | None => false
  end.

Section Memento.

(** The host canvas is a parameter: its pixel contents, its encoder, and
    the two drawing calls [restore] makes.  The host's
    [$instance.sketchable('handler', f)] calls [f(elem, data)] at once, so
    the body of each callback is inlined where the method calls it. *)
Context {Pixels Stroke : Type}.
Variable toDataURL : Pixels -> DataURL.
Variable clear : Pixels -> Pixels.
Variable drawImage : DataURL -> Pixels -> Pixels.

(** What the handler callback receives: [elem[0]] (the canvas) and
    [data], of which only [data.strokes] is used. *)
Record Data : Type := { canvas : Pixels; data_strokes : ref }.

Record State : Type := {
  stack : list Snapshot;
  stpos : Z;
  (** [src] of every [Image] created by [prev]/[next] whose [onload] is
      still to fire, in creation order. *)
  pending : list DataURL;
  data : Data;
  (** The store of stroke arrays. *)
  heap : list (list Stroke)
}.

Inductive completion : Type :=
| Normal (s : State)
| TypeError (s : State).

Definition state_of (c : completion) : State :=
  match c with
  | Normal s => s
  | TypeError s => s
  end.

(** Method chaining [a().b()]: [b] runs only if [a] returned. *)
Definition and_then (c : completion) (f : State -> completion) : completion :=
  match c with
  | Normal s => f s
  | TypeError s => TypeError s
  end.

(** ** Field updates *)

Definition set_stpos (n : Z) (s : State) : State :=
  {| stack := stack s; stpos := n; pending := pending s;
     data := data s; heap := heap s |}.

Definition set_stack (st : list Snapshot) (s : State) : State :=
  {| stack := st; stpos := stpos s; pending := pending s;
     data := data s; heap := heap s |}.

Definition set_pending (p : list DataURL) (s : State) : State :=
  {| stack := stack s; stpos := stpos s; pending := p;
     data := data s; heap := heap s |}.

Definition set_heap (h : list (list Stroke)) (s : State) : State :=
  {| stack := stack s; stpos := stpos s; pending := pending s;
     data := data s; heap := h |}.

Definition set_canvas (p : Pixels) (s : State) : State :=
  {| stack := stack s; stpos := stpos s; pending := pending s;
     data := {| canvas := p; data_strokes := data_strokes (data s) |};
     heap := heap s |}.

Definition set_data_strokes (r : ref) (s : State) : State :=
  {| stack := stack s; stpos := stpos s; pending := pending s;
     data := {| canvas := canvas (data s); data_strokes := r |};
     heap := heap s |}.

(** ** Arrays *)

(** [a.slice()]: a new array with the elements of [a]; a [TypeError]
    ([None]) when [a] is no array. *)
Definition slice (h : list (list Stroke)) (a : ref)
  : option (ref * list (list Stroke)) :=
  match h !! a with
  | Some xs => Some (length h, h ++ [xs])
  | None => None
  end.

(** [a.push(x)] *)
Definition array_push (a : ref) (x : Stroke) (h : list (list Stroke))
  : list (list Stroke) :=
  alter (fun xs => xs ++ [x]) a h.

(** [new Image(); snapshot.src = url; snapshot.onload = ...] *)
Definition new_Image (url : DataURL) (s : State) : State :=
  set_pending (pending s ++ [url]) s.

(** ** MementoCanvas *)

Definition prev (s : State) : completion :=
  if 0 <? stpos s then
    let s1 := set_stpos (stpos s - 1) s in
    match js_index (stack s1) (stpos s1) with
    | Some e => Normal (new_Image (image e) s1)
    | None => TypeError s1
    end
  else Normal s.

Definition next (s : State) : completion :=
  if stpos s <? Z.of_nat (length (stack s)) - 1 then
    let s1 := set_stpos (stpos s + 1) s in
    match js_index (stack s1) (stpos s1) with
    | Some e => Normal (new_Image (image e) s1)
    | None => TypeError s1
    end
  else Normal s.

(** [restore(snapshot)], with [snapshot] the loaded image of [src]. *)
Definition restore (src : DataURL) (s : State) : completion :=
  let s1 := set_canvas (clear (canvas (data s))) s in
  let s2 := set_canvas (drawImage src (canvas (data s1))) s1 in
  match js_index (stack s2) (stpos s2) with
  | None => TypeError s2
  | Some e =>
      match slice (heap s2) (strokes e) with
      | None => TypeError s2
      | Some (a, h) => Normal (set_data_strokes a (set_heap h s2))
      end
  end.

(** The [onload] of the [k]-th pending image fires. *)
Definition onload (k : nat) (s : State) : completion :=
  match pending s !! k with
  | Some src => restore src (set_pending (delete k (pending s)) s)
  | None => Normal s
  end.

Definition undo (s : State) : completion := prev s.

Definition redo (s : State) : completion := next s.

Definition reset (s : State) : completion :=
  Normal (set_stpos (-1) (set_stack [] s)).

(** In the continuation branch the right-hand side is evaluated before
    the property of [stack[stpos]] is written, so the copy is made even
    when the write throws. *)
Definition save (evt : option Event) (s : State) : completion :=
  if is_continuation evt then
    match slice (heap s) (data_strokes (data s)) with
    | None => TypeError s
    | Some (a, h) =>
        let s1 := set_heap h s in
        match js_index (stack s1) (stpos s1) with
        | None => TypeError s1
        | Some e =>
            Normal (set_stack
                      (<[Z.to_nat (stpos s1) :=
                           {| image := image e; strokes := a |}]> (stack s1))
                      s1)
        end
    end
  else
    let url := toDataURL (canvas (data s)) in
    match slice (heap s) (data_strokes (data s)) with
    | None => TypeError s
    | Some (a, h) =>
        let s1 := set_heap h s in
        let s2 := set_stack (stack s1 ++ [{| image := url; strokes := a |}]) s1 in
        Normal (set_stpos (stpos s2 + 1) s2)
    end.

Definition keyManager (e : KeyEvent) (s : State) : completion :=
  if ctrlKey e then
    if which e =? 26 then
      if shiftKey e then redo s else undo s
    else if which e =? 25 then redo s
    else Normal s
  else Normal s.

(** The key listeners live in the document, outside the state. *)
Definition init (s : State) : completion := Normal s.

Definition destroy (s : State) : completion := reset s.

(** ** The plugin *)

Definition callbacks_clear (s : State) : completion :=
  and_then (reset s) (save None).

Definition callbacks_mouseup (evt : option Event) (s : State) : completion :=
  save evt s.

Definition callbacks_destroy (s : State) : completion := destroy s.

(** [var stack = []; var stpos = -1;] *)
Definition MementoCanvas (d : Data) (h : list (list Stroke)) : State :=
  {| stack := []; stpos := -1; pending := []; data := d; heap := h |}.

(** [config.memento = new MementoCanvas($instance);
    config.memento.init().save();] *)
Definition memento (d : Data) (h : list (list Stroke)) : completion :=
  and_then (init (MementoCanvas d h)) (save None).

(** ** Event sequences *)

Inductive op : Type :=
| OpUndo
| OpRedo
| OpReset
| OpSave (evt : option Event)
| OpClear
| OpMouseup (evt : option Event)
| OpDestroy
| OpKey (e : KeyEvent)
| OpOnload (k : nat).

Definition exec (o : op) (s : State) : completion :=
  match o with
  | OpUndo => undo s
  | OpRedo => redo s
  | OpReset => reset s
  | OpSave evt => save evt s
  | OpClear => callbacks_clear s
  | OpMouseup evt => callbacks_mouseup evt s
  | OpDestroy => callbacks_destroy s
  | OpKey e => keyManager e s
  | OpOnload k => onload k s
  end.

(** An uncaught exception ends the handler that raised it, not the page:
    the next event runs on the state the failed handler left. *)
Fixpoint run (ops : list op) (s : State) : State :=
  match ops with
  | [] => s
  | o :: rest => run rest (state_of (exec o s))
  end.

(** ** Invariants *)

(** The range of the cursor: [-1 <= stpos <= stack.length - 1], and
    [stpos = -1] exactly when the stack is empty. *)
Definition cursor_inv (s : State) : Prop :=
  -1 <= stpos s <= Z.of_nat (length (stack s)) - 1
  /\ (stpos s = -1 <-> length (stack s) = 0%nat).

(** Every array reference in use is allocated: [data.strokes] and the
    [strokes] of every entry. *)
Definition heap_inv (s : State) : Prop :=
  (data_strokes (data s) < length (heap s))%nat
  /\ Forall (fun e => (strokes e < length (heap s))%nat) (stack s).

#[global] Instance cursor_inv_dec (s : State) : Decision (cursor_inv s).
Proof. unfold cursor_inv. apply _. Defined.

#[global] Instance heap_inv_dec (s : State) : Decision (heap_inv s).
Proof. unfold heap_inv. apply _. Defined.

(** The guard against stale decodes, as a property of a state: the
    [onload] of a pending image whose [src] is not the image of the entry
    under the cursor leaves the canvas and [data.strokes] alone. *)
Definition stale_decode_dropped (s : State) : Prop :=
  forall (k : nat) (src : DataURL),
    pending s !! k = Some src ->
    image <$> js_index (stack s) (stpos s) <> Some src ->
    data (state_of (onload k s)) = data s.

(** What a completed restoration of entry [e] leaves, starting from [s]:
    the canvas cleared and painted with the image of [e], [data.strokes]
    a new array with the elements of the array of [e], which writes to
    [data.strokes] cannot reach. *)
Definition restored (s : State) (e : Snapshot) (s' : State) : Prop :=
  canvas (data s') = drawImage (image e) (clear (canvas (data s)))
  /\ heap s !! data_strokes (data s') = None
  /\ data_strokes (data s') <> strokes e
  /\ heap s' !! data_strokes (data s') = heap s !! strokes e
  /\ heap s' !! strokes e = heap s !! strokes e
  /\ (forall x : Stroke,
        array_push (data_strokes (data s')) x (heap s') !! strokes e
        = heap s !! strokes e)
  /\ (forall a : ref,
        heap (set_data_strokes a s') !! strokes e = heap s !! strokes e).

End Memento.

Section Completion.

Context {Pixels Stroke : Type}.
Variable clear : Pixels -> Pixels.
Variable drawImage : DataURL -> Pixels -> Pixels.

(** What the load of an image of source [src] leaves, starting from [s]
    with the entry [e] under the cursor: the canvas cleared and painted
    with the image, whatever entry it was requested for; [data.strokes] an
    array that did not exist, other than the array of [e], with the
    elements of the array of [e]; every array that existed as it was; the
    entries and the cursor as they were. *)
Definition applied (src : DataURL) (s : @State Pixels Stroke) (e : Snapshot)
    (s' : @State Pixels Stroke) : Prop :=
  canvas (data s') = drawImage src (clear (canvas (data s)))
  /\ heap s !! data_strokes (data s') = None
  /\ data_strokes (data s') <> strokes e
  /\ heap s' !! data_strokes (data s') = heap s !! strokes e
  /\ (forall (a : ref) (ys : list Stroke),
        heap s !! a = Some ys -> heap s' !! a = Some ys)
  /\ stack s' = stack s
  /\ stpos s' = stpos s.

End Completion.

(** ** A concrete canvas

    Pixels are named by the data URL that encodes them; strokes are
    numbered.  Clearing gives the empty picture, and an image drawn on a
    cleared canvas gives the picture of that image. *)
Module Demo.

Local Open Scope string_scope.

Definition toDataURL (p : string) : DataURL := p.

Definition clear (_ : string) : string := EmptyString.

Definition drawImage (url : DataURL) (_ : string) : string := url.

(** Two captures: the blank canvas, then one stroke; the cursor is on
    the second.  Array 0 is [data.strokes], arrays 1 and 2 are the copies
    held by the entries. *)
Definition two_entries : @State string nat :=
  {| stack := [ {| image := "blank"; strokes := 1%nat |};
                {| image := "one"; strokes := 2%nat |} ];
     stpos := 1;
     pending := [];
     data := {| canvas := "one"; data_strokes := 0%nat |};
     heap := [ [7%nat]; []; [7%nat] ] |}.

(** The same history with a third capture, the cursor in the middle. *)
Definition three_entries : @State string nat :=
  {| stack := [ {| image := "blank"; strokes := 1%nat |};
                {| image := "one"; strokes := 2%nat |};
                {| image := "two"; strokes := 3%nat |} ];
     stpos := 1;
     pending := [];
     data := {| canvas := "one"; data_strokes := 0%nat |};
     heap := [ [7%nat]; []; [7%nat]; [7%nat; 8%nat] ] |}.

(** The plugin on this canvas. *)
Definition save (evt : option Event) (s : @State string nat) : completion :=
  save toDataURL evt s.

Definition onload (k : nat) (s : @State string nat) : completion :=
  onload clear drawImage k s.

Definition callbacks_clear (s : @State string nat) : completion :=
  callbacks_clear toDataURL s.

Definition run (ops : list op) (s : @State string nat) : State :=
  run toDataURL clear drawImage ops s.

(** The plugin attached to a blank canvas with no stroke yet. *)
Definition attached : @State string nat :=
  state_of (memento toDataURL
              {| canvas := "blank"; data_strokes := 0%nat |} [ [] ]).

(** A second touch point of the gesture is released. *)
Definition touch_end : option Event := Some {| identifier := Some 1 |}.

(** The release of a mouse button: no [identifier]. *)
Definition mouse_up : option Event := Some {| identifier := None |}.

End Demo.

(** * The plugin around the history *)

Section Plugin.

Context {Pixels Stroke : Type}.
Variable toDataURL : Pixels -> DataURL.
Variable clear : Pixels -> Pixels.
Variable drawImage : DataURL -> Pixels -> Pixels.

(** ** Event sequences that stop at the first exception *)

Fixpoint steps (ops : list op) (s : @State Pixels Stroke) : completion :=
  match ops with
  | [] => Normal s
  | o :: rest => and_then (exec toDataURL clear drawImage o s) (steps rest)
  end.

(** The events that replace [stack] by a new array. *)
Definition resets (o : op) : bool :=
  match o with
  | OpReset | OpClear | OpDestroy => true
  | _ => false
  end.

(** The events that leave [stack] empty. *)
Definition empties (o : op) : bool :=
  match o with
  | OpReset | OpDestroy => true
  | _ => false
  end.

(** How many of the release events are no continuation. *)
Fixpoint captures (evts : list (option Event)) : nat :=
  match evts with
  | [] => 0%nat
  | evt :: rest =>
      ((if is_continuation evt then 0 else 1) + captures rest)%nat
  end.

(** ** [config.options] and [override] *)

(** A function kept in [config.options.events], called as
    [f(elem, data, evt)].  For a function of the user, [TypeError] stands
    for whatever it throws. *)
Definition handler : Type :=
  option Event -> @State Pixels Stroke -> @completion Pixels Stroke.

(** A property of [config.options.events]: a function, or a value for
    which [typeof] is not ['function']. *)
Inductive value : Type :=
| VFunction (f : handler)
| VOther.

(** [config.options]: [options_events] is the [events] property
    ([None]: [undefined]); of every other property only whether it is
    truthy is read. *)
Record Options : Type := {
  props : gmap string bool;
  options_events : option (gmap string value)
}.

Inductive outcome (A : Type) : Type :=
| Returned (a : A)
| Thrown (a : A).

Arguments Returned {A} a.
Arguments Thrown {A} a.

Definition outcome_value {A : Type} (r : outcome A) : A :=
  match r with
  | Returned a => a
  | Thrown a => a
  end.

(** The object [callbacks]; [callbacks[ev]] is [undefined] for any other
    [ev]. *)
Definition callbacks (ev : string) : option handler :=
  if String.eqb ev "clear" then
    Some (fun _ s => callbacks_clear toDataURL s)
  else if String.eqb ev "mouseup" then
    Some (fun evt s => callbacks_mouseup toDataURL evt s)
  else if String.eqb ev "destroy" then
    Some (fun _ s => callbacks_destroy s)
  else None.

(** [f.apply($instance, arguments)] *)
Definition apply_handler (f : option handler) : handler :=
  fun evt s =>
    match f with
    | Some g => g evt s
    | None => TypeError s
    end.

Definition as_value (f : option handler) : value :=
  match f with
  | Some g => VFunction g
  | None => VOther
  end.

Definition override (ev : string) (o : Options) : outcome Options :=
  let key := String.append ev "$bound" in
  match props o !! key with
  | Some true => Returned o
  | _ =>
      let o1 := {| props := <[key := true]> (props o);
                   options_events := options_events o |} in
      match options_events o1 with
      | Some evs =>
          match evs !! ev with
          | Some (VFunction fn) =>
              Returned
                {| props := props o1;
                   options_events :=
                     Some (<[ev := VFunction
                                     (fun evt s =>
                                        and_then (fn evt s)
                                          (apply_handler (callbacks ev) evt))]>
                             evs) |}
          | _ =>
              Returned
                {| props := props o1;
                   options_events :=
                     Some (<[ev := as_value (callbacks ev)]> evs) |}
          end
      | None => Thrown o1
      end
  end.

(** ['mouseup clear destroy'.split(' ')] *)
Definition events : list string := ["mouseup"; "clear"; "destroy"]%string.

(** [for (var i = 0; i < events.length; i++) override(events[i]);] *)
Fixpoint override_each (evs : list string) (o : Options) : outcome Options :=
  match evs with
  | [] => Returned o
  | ev :: rest =>
      match override ev o with
      | Returned o1 => override_each rest o1
      | Thrown o1 => Thrown o1
      end
  end.

(** The object the plugin receives from [$instance.sketchable('config')]. *)
Record Config : Type := {
  options : Options;
  config_memento : option (@State Pixels Stroke)
}.

(** [$.fn.sketchable.plugins.memento]: the overrides, then a new history
    with its first capture.  [d] and [h] are the canvas, [data.strokes] and
    the arrays at that moment.  The methods it adds to the API table
    ([undo], [redo], [save]) call those of [data.memento] and are not
    kept in the configuration. *)
Definition plugins_memento (c : Config) (d : Data) (h : list (list Stroke))
  : outcome Config :=
  match override_each events (options c) with
  | Thrown o => Thrown {| options := o; config_memento := config_memento c |}
  | Returned o =>
      match memento toDataURL d h with
      | Normal s => Returned {| options := o; config_memento := Some s |}
      | TypeError s => Thrown {| options := o; config_memento := Some s |}
      end
  end.

End Plugin.

Arguments Returned {A} a.
Arguments Thrown {A} a.

(** ** A concrete configuration *)
Module DemoPlugin.

Local Open Scope string_scope.

(** A [clear] handler of the user that does nothing. *)
Definition user_clear : @handler string nat := fun _ s => Normal s.

(** Options with that handler and no flag. *)
Definition user_options : @Options string nat :=
  {| props := ∅;
     options_events := Some {[ "clear" := VFunction user_clear ]} |}.

(** Options without [events]. *)
Definition bare_options : @Options string nat :=
  {| props := ∅; options_events := None |}.

Definition user_config : @Config string nat :=
  {| options := user_options; config_memento := None |}.

(** A blank canvas with no stroke. *)
Definition blank : @Data string :=
  {| canvas := "blank"; data_strokes := 0%nat |}.

Definition plugins_memento (c : @Config string nat) (d : @Data string)
    (h : list (list nat)) : outcome Config :=
  plugins_memento Demo.toDataURL c d h.

(** [two_entries] while the image requested by an [undo] is loading. *)
Definition loading : @State string nat :=
  Demo.run [OpUndo] Demo.two_entries.

End DemoPlugin.

(** A closed decidable proposition, by evaluation. *)
Ltac by_decide := apply (bool_decide_unpack _); vm_compute; exact I.

(** * Properties *)

Section Properties.

Context {Pixels Stroke : Type}.
Variable toDataURL : Pixels -> DataURL.
Variable clear : Pixels -> Pixels.
Variable drawImage : DataURL -> Pixels -> Pixels.

Implicit Types (s : @State Pixels Stroke) (h : list (list Stroke)).
Implicit Types (e : Snapshot) (a : ref) (xs : list Stroke).

(** ** Indexing and copying *)

Lemma js_index_Some {A : Type} (l : list A) (i : Z) (x : A) :
  js_index l i = Some x <-> 0 <= i /\ l !! Z.to_nat i = Some x.
Proof.
  unfold js_index. destruct (Z.ltb_spec i 0); split.
  - discriminate.
  - intros [? _]. lia.
  - auto.
  - tauto.
Qed.

Lemma js_index_in_range {A : Type} (l : list A) (i : Z) :
  0 <= i < Z.of_nat (length l) -> is_Some (js_index l i).
Proof.
  intros Hi. unfold js_index.
  destruct (Z.ltb_spec i 0); [lia|].
  apply lookup_lt_is_Some. lia.
Qed.

Lemma js_index_of_nat {A : Type} (l : list A) (n : nat) :
  js_index l (Z.of_nat n) = l !! n.
Proof.
  unfold js_index. destruct (Z.ltb_spec (Z.of_nat n) 0); [lia|].
  by rewrite Nat2Z.id.
Qed.

Lemma slice_Some h a xs :
  h !! a = Some xs -> slice h a = Some (length h, h ++ [xs]).
Proof. intros H. unfold slice. by rewrite H. Qed.

Lemma slice_inv h a b h' :
  slice h a = Some (b, h') ->
  exists xs, h !! a = Some xs /\ b = length h /\ h' = h ++ [xs].
Proof.
  unfold slice. destruct (h !! a) as [xs|]; [|discriminate].
  intros [= <- <-]. eauto.
Qed.

(** Allocation keeps every array that exists. *)
Lemma alloc_lookup_old h a xs ys :
  h !! a = Some ys -> (h ++ [xs]) !! a = Some ys.
Proof. intros H. by apply lookup_app_l_Some. Qed.

Lemma alloc_lookup_new h xs : (h ++ [xs]) !! length h = Some xs.
Proof. by rewrite lookup_app_r, Nat.sub_diag. Qed.

Lemma alloc_fresh h : h !! length h = None.
Proof. by apply lookup_ge_None. Qed.

(** ** [save] *)

(** A capture that is no continuation, on a canvas whose
    [data.strokes] is an array. *)
Lemma save_capture evt s xs :
  is_continuation evt = false ->
  heap s !! data_strokes (data s) = Some xs ->
  save toDataURL evt s =
    Normal {| stack := stack s ++
                [{| image := toDataURL (canvas (data s));
                    strokes := length (heap s) |}];
              stpos := stpos s + 1;
              pending := pending s;
              data := data s;
              heap := heap s ++ [xs] |}.
Proof.
  intros Hc Hxs. unfold save. rewrite Hc.
  by rewrite (slice_Some _ _ _ Hxs).
Qed.

(** C8: a [save] that is no continuation discards and modifies no
    entry: whatever was at index [i] of the stack is at index [i]
    afterwards, image and stroke array alike, and the elements of that
    stroke array are the same; the cursor plays no part. *)
Theorem save_keeps_entries (evt : option Event) s :
  is_continuation evt = false ->
  forall (i : nat) e,
    stack s !! i = Some e ->
    stack (state_of (save toDataURL evt s)) !! i = Some e
    /\ (forall xs, heap s !! strokes e = Some xs ->
          heap (state_of (save toDataURL evt s)) !! strokes e = Some xs).
Proof.
  intros Hc i e Hi. unfold save. rewrite Hc.
  destruct (slice (heap s) (data_strokes (data s))) as [[a h']|] eqn:Hs.
  - apply slice_inv in Hs as (ys & _ & -> & ->). simpl. split.
    + by apply lookup_app_l_Some.
    + intros xs Hxs. by apply alloc_lookup_old.
  - simpl. auto.
Qed.

(** A continuation whose target is missing: the copy is made, then the
    write to [stack[stpos].strokes] throws. *)
Lemma save_continuation_no_entry evt s xs :
  is_continuation evt = true ->
  js_index (stack s) (stpos s) = None ->
  heap s !! data_strokes (data s) = Some xs ->
  save toDataURL evt s = TypeError (set_heap (heap s ++ [xs]) s).
Proof.
  intros Hc He Hxs. unfold save. rewrite Hc, (slice_Some _ _ _ Hxs).
  simpl. by rewrite He.
Qed.

(** A continuation never returns normally without an entry under the
    cursor, and leaves the stack and the cursor as they were. *)
Lemma save_continuation_throws evt s :
  is_continuation evt = true ->
  js_index (stack s) (stpos s) = None ->
  exists s',
    save toDataURL evt s = TypeError s'
    /\ stack s' = stack s /\ stpos s' = stpos s.
Proof.
  intros Hc He. unfold save. rewrite Hc.
  destruct (slice (heap s) (data_strokes (data s))) as [[a h']|]; simpl.
  - rewrite He. by eexists.
  - by eexists.
Qed.

(** C3: with an entry under the cursor, a continuation save returns and
    changes neither the length of the stack, nor the cursor, nor the
    image of any entry, nor any entry but the one under the cursor; that
    entry gets a new array holding exactly the current strokes.  No
    array that existed is written. *)
Theorem save_continuation_amends (evt : option Event) s e xs :
  is_continuation evt = true ->
  js_index (stack s) (stpos s) = Some e ->
  heap s !! data_strokes (data s) = Some xs ->
  exists s',
    save toDataURL evt s = Normal s'
    /\ length (stack s') = length (stack s)
    /\ stpos s' = stpos s
    /\ (forall i : nat, image <$> stack s' !! i = image <$> stack s !! i)
    /\ (forall i : nat,
          i <> Z.to_nat (stpos s) -> stack s' !! i = stack s !! i)
    /\ js_index (stack s') (stpos s') =
         Some {| image := image e; strokes := length (heap s) |}
    /\ heap s !! length (heap s) = None
    /\ heap s' !! length (heap s) = Some xs
    /\ (forall a ys, heap s !! a = Some ys -> heap s' !! a = Some ys)
    /\ data s' = data s
    /\ pending s' = pending s.
Proof.
  intros Hc He Hxs. unfold save. rewrite Hc, (slice_Some _ _ _ Hxs).
  simpl. rewrite He. eexists. split; [reflexivity|]. simpl.
  apply js_index_Some in He as [Hpos He].
  assert (Hlt : (Z.to_nat (stpos s) < length (stack s))%nat)
    by (eapply lookup_lt_Some; eauto).
  repeat split.
  - by rewrite length_insert.
  - intros i. destruct (decide (i = Z.to_nat (stpos s))) as [->|Hne].
    + rewrite list_lookup_insert_eq by done. by rewrite He.
    + by rewrite list_lookup_insert_ne by done.
  - intros i Hne. by rewrite list_lookup_insert_ne by done.
  - apply js_index_Some. split; [done|].
    by rewrite list_lookup_insert_eq by done.
  - apply alloc_fresh.
  - apply alloc_lookup_new.
  - intros a ys Hys. by apply alloc_lookup_old.
Qed.

(** C6: a save with continuation semantics ([identifier] 1) on the
    history as [MementoCanvas] creates it (no entry, cursor -1) does not
    capture anything: it ends in a [TypeError], the stack still empty
    and the cursor still -1. *)
Theorem save_continuation_on_empty_throws (d : Data) h :
  exists s',
    save toDataURL (Some {| identifier := Some 1 |}) (MementoCanvas d h)
      = TypeError s'
    /\ stack s' = []
    /\ stpos s' = -1.
Proof. by apply save_continuation_throws. Qed.

(** ** [reset] and the [clear] callback *)

Lemma reset_spec s :
  reset s = Normal {| stack := []; stpos := -1; pending := pending s;
                      data := data s; heap := heap s |}.
Proof. reflexivity. Qed.

(** C7: whatever the history was, the [clear] callback leaves exactly
    one entry, the cursor on it (index 0); the entry is a capture of the
    canvas as the callback finds it: the encoding of its pixels and a
    new array with the elements of [data.strokes]. *)
Theorem clear_reseeds_history s xs :
  heap s !! data_strokes (data s) = Some xs ->
  exists s',
    callbacks_clear toDataURL s = Normal s'
    /\ stack s' = [{| image := toDataURL (canvas (data s));
                      strokes := length (heap s) |}]
    /\ length (stack s') = 1%nat
    /\ stpos s' = 0
    /\ heap s !! length (heap s) = None
    /\ heap s' !! length (heap s) = Some xs
    /\ data s' = data s.
Proof.
  intros Hxs. unfold callbacks_clear. rewrite reset_spec. simpl.
  erewrite save_capture; [|done|exact Hxs]. simpl.
  eexists. split; [reflexivity|]. simpl. repeat split.
  - apply alloc_fresh.
  - apply alloc_lookup_new.
Qed.

(** ** [undo] and [redo] *)

Lemma prev_boundary s : stpos s <= 0 -> prev s = Normal s.
Proof.
  intros H. unfold prev. by destruct (Z.ltb_spec 0 (stpos s)); [lia|].
Qed.

Lemma next_boundary s :
  Z.of_nat (length (stack s)) - 1 <= stpos s -> next s = Normal s.
Proof.
  intros H. unfold next.
  by destruct (Z.ltb_spec (stpos s) (Z.of_nat (length (stack s)) - 1)); [lia|].
Qed.

(** Away from the start, [prev] moves the cursor down and requests the
    image of the entry it lands on. *)
Lemma prev_moves s :
  0 < stpos s <= Z.of_nat (length (stack s)) - 1 ->
  exists e,
    js_index (stack s) (stpos s - 1) = Some e
    /\ prev s = Normal {| stack := stack s; stpos := stpos s - 1;
                          pending := pending s ++ [image e];
                          data := data s; heap := heap s |}.
Proof.
  intros H. unfold prev.
  destruct (Z.ltb_spec 0 (stpos s)); [|lia]. simpl.
  destruct (js_index_in_range (stack s) (stpos s - 1)) as [e He]; [lia|].
  exists e. by rewrite He.
Qed.

(** Away from the end, [next] moves the cursor up and requests the image
    of the entry it lands on. *)
Lemma next_moves s :
  -1 <= stpos s < Z.of_nat (length (stack s)) - 1 ->
  exists e,
    js_index (stack s) (stpos s + 1) = Some e
    /\ next s = Normal {| stack := stack s; stpos := stpos s + 1;
                          pending := pending s ++ [image e];
                          data := data s; heap := heap s |}.
Proof.
  intros H. unfold next.
  destruct (Z.ltb_spec (stpos s) (Z.of_nat (length (stack s)) - 1)); [|lia].
  simpl.
  destruct (js_index_in_range (stack s) (stpos s + 1)) as [e He]; [lia|].
  exists e. by rewrite He.
Qed.

(** C4: on a history whose cursor is in range, [undo] with the cursor at
    0 or below and [redo] with the cursor on the last entry return
    normally and change nothing; in every other case [undo] returns with
    the cursor one lower and [redo] with the cursor one higher, the
    entries the same. *)
Theorem undo_redo_steps s :
  cursor_inv s ->
  (stpos s <= 0 -> undo s = Normal s)
  /\ (stpos s = Z.of_nat (length (stack s)) - 1 -> redo s = Normal s)
  /\ (~ stpos s <= 0 ->
      exists s', undo s = Normal s'
                 /\ stpos s' = stpos s - 1 /\ stack s' = stack s)
  /\ (stpos s <> Z.of_nat (length (stack s)) - 1 ->
      exists s', redo s = Normal s'
                 /\ stpos s' = stpos s + 1 /\ stack s' = stack s).
Proof.
  intros [Hrange _]. unfold undo, redo. repeat split.
  - apply prev_boundary.
  - intros H. apply next_boundary. lia.
  - intros H. destruct (prev_moves s) as (e & _ & ->); [lia|].
    by eexists.
  - intros H. destruct (next_moves s) as (e & _ & ->); [lia|].
    by eexists.
Qed.

(** C5: with the cursor from 1 to [stack.length - 2], [undo] and then
    [redo] both return, and the cursor, the entries and so the entry under
    the cursor are what they were before the [undo]. *)
Theorem undo_redo_round_trip s :
  1 <= stpos s <= Z.of_nat (length (stack s)) - 2 ->
  exists s1 s2,
    undo s = Normal s1
    /\ redo s1 = Normal s2
    /\ stpos s2 = stpos s
    /\ stack s2 = stack s
    /\ is_Some (js_index (stack s) (stpos s))
    /\ js_index (stack s2) (stpos s2) = js_index (stack s) (stpos s).
Proof.
  intros H. unfold undo, redo.
  destruct (prev_moves s) as (e1 & _ & Hp); [lia|].
  destruct (next_moves {| stack := stack s; stpos := stpos s - 1;
                          pending := pending s ++ [image e1];
                          data := data s; heap := heap s |})
    as (e2 & _ & Hn); [simpl; lia|].
  simpl in Hn.
  eexists. eexists. split; [exact Hp|]. split; [exact Hn|]. simpl.
  replace (stpos s - 1 + 1) with (stpos s) by lia.
  repeat split. apply js_index_in_range. lia.
Qed.

(** ** [restore] *)

(** With an entry under the cursor whose [strokes] is an array, the
    [onload] of a pending image repaints the canvas with that image and
    replaces [data.strokes] by a copy of the array of the entry under the
    cursor.  Nothing compares the image with the entry. *)
Lemma onload_applies (k : nat) (src : DataURL) s e xs :
  pending s !! k = Some src ->
  js_index (stack s) (stpos s) = Some e ->
  heap s !! strokes e = Some xs ->
  onload clear drawImage k s =
    Normal {| stack := stack s; stpos := stpos s;
              pending := delete k (pending s);
              data := {| canvas := drawImage src (clear (canvas (data s)));
                         data_strokes := length (heap s) |};
              heap := heap s ++ [xs] |}.
Proof.
  intros Hk He Hxs. unfold onload, restore. rewrite Hk. simpl.
  rewrite He. by rewrite (slice_Some _ _ _ Hxs).
Qed.

Lemma lookup_last_pending (p : list DataURL) (u : DataURL) :
  (p ++ [u]) !! length p = Some u.
Proof. by rewrite lookup_app_r, Nat.sub_diag. Qed.

Lemma delete_last_pending (p : list DataURL) (u : DataURL) :
  delete (length p) (p ++ [u]) = p.
Proof. by rewrite delete_middle, app_nil_r. Qed.

Lemma heap_inv_entry s (i : Z) e :
  heap_inv s -> js_index (stack s) i = Some e ->
  exists xs, heap s !! strokes e = Some xs.
Proof.
  intros [_ Hall] He. apply js_index_Some in He as [_ He].
  apply (Forall_lookup_1 _ _ _ _ Hall) in He.
  by apply lookup_lt_is_Some in He.
Qed.

(** The copy made by [restore] is out of reach of what is done to
    [data.strokes] afterwards. *)
Lemma restored_after_copy s e xs (c : Pixels) (p : list DataURL) (n : Z) :
  heap s !! strokes e = Some xs ->
  c = drawImage (image e) (clear (canvas (data s))) ->
  restored clear drawImage s e
    {| stack := stack s; stpos := n; pending := p;
       data := {| canvas := c; data_strokes := length (heap s) |};
       heap := heap s ++ [xs] |}.
Proof.
  intros Hxs ->. unfold restored. simpl.
  assert (Hne : length (heap s) <> strokes e).
  { apply lookup_lt_Some in Hxs. lia. }
  repeat split.
  - apply alloc_fresh.
  - done.
  - by rewrite alloc_lookup_new.
  - rewrite Hxs. by apply alloc_lookup_old.
  - intros x. unfold array_push.
    rewrite list_lookup_alter_ne by done.
    rewrite Hxs. by apply alloc_lookup_old.
  - intros _. rewrite Hxs. by apply alloc_lookup_old.
Qed.

(** What a moving [prev] or [next] leaves: the cursor on an entry [e] and
    the image of [e] loading as the last pending one. *)
Lemma prev_requests s :
  0 < stpos s <= Z.of_nat (length (stack s)) - 1 ->
  exists e s1,
    prev s = Normal s1
    /\ stpos s1 = stpos s - 1
    /\ js_index (stack s1) (stpos s1) = Some e
    /\ pending s1 !! length (pending s) = Some (image e)
    /\ stack s1 = stack s /\ data s1 = data s /\ heap s1 = heap s.
Proof.
  intros H. destruct (prev_moves s) as (e & He & Hp); [exact H|].
  eexists e, _. split; [exact Hp|]. simpl.
  split; [done|]. split; [exact He|].
  split; [apply lookup_last_pending|done].
Qed.

Lemma next_requests s :
  -1 <= stpos s < Z.of_nat (length (stack s)) - 1 ->
  exists e s1,
    next s = Normal s1
    /\ stpos s1 = stpos s + 1
    /\ js_index (stack s1) (stpos s1) = Some e
    /\ pending s1 !! length (pending s) = Some (image e)
    /\ stack s1 = stack s /\ data s1 = data s /\ heap s1 = heap s.
Proof.
  intros H. destruct (next_moves s) as (e & He & Hn); [exact H|].
  eexists e, _. split; [exact Hn|]. simpl.
  split; [done|]. split; [exact He|].
  split; [apply lookup_last_pending|done].
Qed.

(** The load of the image of the entry under the cursor. *)
Lemma onload_restores (k : nat) s e xs :
  pending s !! k = Some (image e) ->
  js_index (stack s) (stpos s) = Some e ->
  heap s !! strokes e = Some xs ->
  exists s',
    onload clear drawImage k s = Normal s'
    /\ restored clear drawImage s e s'
    /\ heap s' !! data_strokes (data s') = Some xs
    /\ stack s' = stack s
    /\ stpos s' = stpos s.
Proof.
  intros Hk He Hxs.
  rewrite (onload_applies k (image e) s e xs Hk He Hxs).
  eexists. split; [reflexivity|]. simpl.
  split; [by apply restored_after_copy|].
  split; [apply alloc_lookup_new|done].
Qed.

(** C9, as the code has it.  Whenever the image of the entry under the
    cursor loads, the canvas is the cleared canvas with that image drawn
    on it, and [data.strokes] is an array that did not exist before, with
    the elements of that entry's array; the entry's array is another one,
    and pushing onto [data.strokes] or assigning [data.strokes] leaves its
    elements as they were; entries and cursor are untouched.  On a
    history whose cursor and array references are in range, an [undo] (or
    a [redo]) away from the boundary returns with the cursor on an entry
    and the image of that entry loading; so this is what its restoration
    gives when the image loads with the cursor still on that entry, as it
    does when it loads next. *)
Theorem restore_copies_entry_under_cursor :
  (forall (k : nat) s e xs,
     pending s !! k = Some (image e) ->
     js_index (stack s) (stpos s) = Some e ->
     heap s !! strokes e = Some xs ->
     exists s',
       onload clear drawImage k s = Normal s'
       /\ restored clear drawImage s e s'
       /\ heap s' !! data_strokes (data s') = Some xs
       /\ stack s' = stack s
       /\ stpos s' = stpos s)
  /\ (forall s,
        cursor_inv s ->
        heap_inv s ->
        (0 < stpos s ->
         exists e xs s1 s2,
           undo s = Normal s1
           /\ stpos s1 = stpos s - 1
           /\ js_index (stack s1) (stpos s1) = Some e
           /\ pending s1 !! length (pending s) = Some (image e)
           /\ heap s !! strokes e = Some xs
           /\ onload clear drawImage (length (pending s)) s1 = Normal s2
           /\ restored clear drawImage s e s2
           /\ heap s2 !! data_strokes (data s2) = Some xs
           /\ stack s2 = stack s
           /\ stpos s2 = stpos s - 1)
        /\ (stpos s < Z.of_nat (length (stack s)) - 1 ->
            exists e xs s1 s2,
              redo s = Normal s1
              /\ stpos s1 = stpos s + 1
              /\ js_index (stack s1) (stpos s1) = Some e
              /\ pending s1 !! length (pending s) = Some (image e)
              /\ heap s !! strokes e = Some xs
              /\ onload clear drawImage (length (pending s)) s1 = Normal s2
              /\ restored clear drawImage s e s2
              /\ heap s2 !! data_strokes (data s2) = Some xs
              /\ stack s2 = stack s
              /\ stpos s2 = stpos s + 1)).
Proof.
  split; [intros k s e xs; apply onload_restores|].
  intros s [Hrange _] Hheap. unfold undo, redo. split; intros Hpos.
  - destruct (prev_requests s)
      as (e & s1 & Hp & Hpos1 & He & Hk & Hstack & Hdata & Hh); [lia|].
    assert (He' : js_index (stack s) (stpos s1) = Some e)
      by (by rewrite <- Hstack).
    destruct (heap_inv_entry s _ e Hheap He') as [xs Hxs].
    assert (Hxs1 : heap s1 !! strokes e = Some xs) by (by rewrite Hh).
    destruct (onload_restores _ s1 e xs Hk He Hxs1)
      as (s2 & Hload & Hres & Hcopy & Hstack2 & Hpos2).
    assert (Hres' : restored clear drawImage s e s2).
    { unfold restored in *. rewrite <- Hdata, <- Hh. exact Hres. }
    exists e, xs, s1, s2.
    split; [exact Hp|]. split; [exact Hpos1|]. split; [exact He|].
    split; [exact Hk|]. split; [exact Hxs|]. split; [exact Hload|].
    split; [exact Hres'|]. split; [exact Hcopy|].
    split; congruence.
  - destruct (next_requests s)
      as (e & s1 & Hn & Hpos1 & He & Hk & Hstack & Hdata & Hh); [lia|].
    assert (He' : js_index (stack s) (stpos s1) = Some e)
      by (by rewrite <- Hstack).
    destruct (heap_inv_entry s _ e Hheap He') as [xs Hxs].
    assert (Hxs1 : heap s1 !! strokes e = Some xs) by (by rewrite Hh).
    destruct (onload_restores _ s1 e xs Hk He Hxs1)
      as (s2 & Hload & Hres & Hcopy & Hstack2 & Hpos2).
    assert (Hres' : restored clear drawImage s e s2).
    { unfold restored in *. rewrite <- Hdata, <- Hh. exact Hres. }
    exists e, xs, s1, s2.
    split; [exact Hn|]. split; [exact Hpos1|]. split; [exact He|].
    split; [exact Hk|]. split; [exact Hxs|]. split; [exact Hload|].
    split; [exact Hres'|]. split; [exact Hcopy|].
    split; congruence.
Qed.

(** ** Two decodes in flight *)

(** The load of any pending image, with an entry under the cursor. *)
Lemma onload_applied (k : nat) (src : DataURL) s e xs :
  pending s !! k = Some src ->
  js_index (stack s) (stpos s) = Some e ->
  heap s !! strokes e = Some xs ->
  exists s',
    onload clear drawImage k s = Normal s'
    /\ applied clear drawImage src s e s'
    /\ heap s' !! data_strokes (data s') = Some xs
    /\ pending s' = delete k (pending s)
    /\ data_strokes (data s') = length (heap s)
    /\ heap s' = heap s ++ [xs].
Proof.
  intros Hk He Hxs. rewrite (onload_applies k src s e xs Hk He Hxs).
  eexists. split; [reflexivity|]. unfold applied. simpl.
  assert (Hne : length (heap s) <> strokes e).
  { apply lookup_lt_Some in Hxs. lia. }
  repeat split.
  - apply alloc_fresh.
  - done.
  - by rewrite alloc_lookup_new.
  - intros a ys Hys. by apply alloc_lookup_old.
  - apply alloc_lookup_new.
Qed.

(** C1, as the code has it: no completion is dropped.  Whenever a pending
    image loads with an entry under the cursor, the canvas is cleared and
    that image drawn, whatever entry it was requested for, and
    [data.strokes] becomes an array that did not exist, other than the
    array of the entry under the cursor, with that entry's strokes; no
    array that existed is written.  So after [undo] and then [redo] with
    both images still loading and then loading in the order they were
    requested, the first load paints the image of the [undo] target with
    the strokes of the [redo] target, and the second leaves the canvas as
    the cleared canvas with the image of the [redo] target drawn on it and
    [data.strokes] as a new copy of the [redo] target's strokes; the
    cursor, the entries and the pending images are those before the
    [undo]. *)
Theorem decode_completions_are_applied :
  (forall (k : nat) (src : DataURL) s e xs,
     pending s !! k = Some src ->
     js_index (stack s) (stpos s) = Some e ->
     heap s !! strokes e = Some xs ->
     exists s',
       onload clear drawImage k s = Normal s'
       /\ applied clear drawImage src s e s'
       /\ heap s' !! data_strokes (data s') = Some xs
       /\ pending s' = delete k (pending s))
  /\ (forall s,
        cursor_inv s ->
        heap_inv s ->
        0 < stpos s ->
        exists e0 e xs s1 s2 s3 s4,
          js_index (stack s) (stpos s - 1) = Some e0
          /\ js_index (stack s) (stpos s) = Some e
          /\ heap s !! strokes e = Some xs
          /\ undo s = Normal s1
          /\ redo s1 = Normal s2
          /\ pending s2 = pending s ++ [image e0; image e]
          /\ data s2 = data s
          /\ heap s2 = heap s
          /\ onload clear drawImage (length (pending s)) s2 = Normal s3
          /\ applied clear drawImage (image e0) s2 e s3
          /\ heap s3 !! data_strokes (data s3) = Some xs
          /\ onload clear drawImage (length (pending s)) s3 = Normal s4
          /\ applied clear drawImage (image e) s3 e s4
          /\ heap s4 !! data_strokes (data s4) = Some xs
          /\ data_strokes (data s4) <> data_strokes (data s3)
          /\ stpos s4 = stpos s
          /\ stack s4 = stack s
          /\ pending s4 = pending s).
Proof.
  split.
  { intros k src s e xs Hk He Hxs.
    destruct (onload_applied k src s e xs Hk He Hxs)
      as (s' & H1 & H2 & H3 & H4 & _).
    exists s'. auto. }
  intros s [Hrange _] Hheap Hpos.
  destruct (prev_moves s) as (e0 & He0 & Hp); [lia|].
  set (s1 := {| stack := stack s; stpos := stpos s - 1;
                pending := pending s ++ [image e0];
                data := data s; heap := heap s |}) in *.
  destruct (next_moves s1) as (e & He & Hn); [simpl; lia|].
  simpl in He, Hn.
  replace (stpos s - 1 + 1) with (stpos s) in He, Hn by lia.
  destruct (heap_inv_entry s _ e Hheap He) as [xs Hxs].
  set (s2 := {| stack := stack s; stpos := stpos s;
                pending := (pending s ++ [image e0]) ++ [image e];
                data := data s; heap := heap s |}) in *.
  assert (Hpend : pending s2 = pending s ++ [image e0; image e]).
  { simpl. by rewrite <- (assoc_L (++)). }
  destruct (onload_applied (length (pending s)) (image e0) s2 e xs)
    as (s3 & H3 & Happ3 & Hcopy3 & Hpend3 & Hnew3 & Hheap3).
  { rewrite Hpend. by apply list_lookup_middle. }
  { exact He. }
  { exact Hxs. }
  rewrite Hpend, delete_middle in Hpend3.
  destruct Happ3 as (Hc3 & Hfresh3 & Hne3 & Hsame3 & Hold3 & Hstack3 & Hpos3).
  destruct (onload_applied (length (pending s)) (image e) s3 e xs)
    as (s4 & H4 & Happ4 & Hcopy4 & Hpend4 & Hnew4 & Hheap4).
  { rewrite Hpend3. apply lookup_last_pending. }
  { by rewrite Hstack3, Hpos3. }
  { by apply Hold3. }
  rewrite Hpend3, delete_last_pending in Hpend4.
  pose proof Happ4 as (_ & _ & _ & _ & _ & Hstack4 & Hpos4).
  exists e0, e, xs, s1, s2, s3, s4.
  split; [exact He0|]. split; [exact He|]. split; [exact Hxs|].
  split; [exact Hp|]. split; [exact Hn|]. split; [exact Hpend|].
  split; [reflexivity|]. split; [reflexivity|]. split; [exact H3|].
  split; [by repeat split|]. split; [exact Hcopy3|].
  split; [exact H4|]. split; [exact Happ4|]. split; [exact Hcopy4|].
  split.
  { rewrite Hnew4, Hnew3, Hheap3, length_app. simpl. lia. }
  split; [by rewrite Hpos4, Hpos3|].
  split; [by rewrite Hstack4, Hstack3|]. exact Hpend4.
Qed.

(** ** The cursor invariant *)

Lemma cursor_inv_frame s s' :
  stack s' = stack s -> stpos s' = stpos s -> cursor_inv s -> cursor_inv s'.
Proof. unfold cursor_inv. intros -> ->. done. Qed.

Lemma prev_cursor_inv s : cursor_inv s -> cursor_inv (state_of (prev s)).
Proof.
  intros Hinv. destruct (Z.le_gt_cases (stpos s) 0) as [H|H].
  - by rewrite prev_boundary.
  - destruct (prev_moves s) as (e & _ & ->); [destruct Hinv; lia|].
    destruct Hinv as [? ?]. unfold cursor_inv. simpl. lia.
Qed.

Lemma next_cursor_inv s : cursor_inv s -> cursor_inv (state_of (next s)).
Proof.
  intros Hinv.
  destruct (Z.le_gt_cases (Z.of_nat (length (stack s)) - 1) (stpos s))
    as [H|H].
  - by rewrite next_boundary.
  - destruct (next_moves s) as (e & _ & ->); [destruct Hinv; lia|].
    destruct Hinv as [? ?]. unfold cursor_inv. simpl. lia.
Qed.

Lemma reset_cursor_inv s : cursor_inv (state_of (reset s)).
Proof. unfold cursor_inv. simpl. lia. Qed.

Lemma save_cursor_inv evt s :
  cursor_inv s -> cursor_inv (state_of (save toDataURL evt s)).
Proof.
  intros Hinv. unfold save.
  destruct (is_continuation evt);
    destruct (slice (heap s) (data_strokes (data s))) as [[a h']|];
    simpl; try done.
  - destruct (js_index (stack s) (stpos s)); simpl; [|done].
    destruct Hinv as [? ?]. unfold cursor_inv. simpl.
    rewrite length_insert. done.
  - destruct Hinv as [? ?]. unfold cursor_inv. simpl.
    rewrite length_app. simpl. lia.
Qed.

Lemma onload_cursor_inv (k : nat) s :
  cursor_inv s -> cursor_inv (state_of (onload clear drawImage k s)).
Proof.
  intros Hinv. unfold onload, restore.
  destruct (pending s !! k); simpl; [|done].
  destruct (js_index (stack s) (stpos s)) as [e|]; simpl; [|done].
  by destruct (slice (heap s) (strokes e)) as [[a h']|].
Qed.

Lemma exec_cursor_inv (o : op) s :
  cursor_inv s ->
  cursor_inv (state_of (exec toDataURL clear drawImage o s)).
Proof.
  intros Hinv. destruct o as [ | | |evt| |evt| |ke|k]; simpl.
  - by apply prev_cursor_inv.
  - by apply next_cursor_inv.
  - apply reset_cursor_inv.
  - by apply save_cursor_inv.
  - unfold callbacks_clear. rewrite reset_spec. simpl.
    apply save_cursor_inv. unfold cursor_inv. simpl. lia.
  - by apply save_cursor_inv.
  - apply reset_cursor_inv.
  - unfold keyManager, undo, redo.
    destruct (ctrlKey ke); [|done].
    destruct (which ke =? 26); [destruct (shiftKey ke)|];
      [by apply next_cursor_inv|by apply prev_cursor_inv|].
    destruct (which ke =? 25); [by apply next_cursor_inv|done].
  - by apply onload_cursor_inv.
Qed.

Lemma run_cursor_inv (ops : list op) s :
  cursor_inv s -> cursor_inv (run toDataURL clear drawImage ops s).
Proof.
  revert s. induction ops as [|o ops IH]; intros s Hinv; simpl.
  - done.
  - apply IH. by apply exec_cursor_inv.
Qed.

(** C10: from the history as [MementoCanvas] creates it (no entry,
    cursor -1), after every sequence of events (among them [reset],
    [undo], [redo] and every [save]) the cursor is at least -1 and at most
    [stack.length - 1], and it is -1 exactly when the stack is empty. *)
Theorem cursor_in_range_always (d : Data) h (ops : list op) :
  let s := run toDataURL clear drawImage ops (MementoCanvas d h) in
  -1 <= stpos s <= Z.of_nat (length (stack s)) - 1
  /\ (stpos s = -1 <-> stack s = []).
Proof.
  intros s.
  assert (Hinv : cursor_inv s).
  { apply run_cursor_inv. unfold cursor_inv. simpl. lia. }
  destruct Hinv as [Hrange Hempty]. split; [exact Hrange|].
  rewrite Hempty. apply length_zero_iff_nil.
Qed.

End Properties.

(** * Further properties of the history *)

Section History.

Context {Pixels Stroke : Type}.
Variable toDataURL : Pixels -> DataURL.
Variable clear : Pixels -> Pixels.
Variable drawImage : DataURL -> Pixels -> Pixels.

Implicit Types (s : @State Pixels Stroke) (h : list (list Stroke)).
Implicit Types (e : Snapshot) (a : ref) (xs : list Stroke).

Local Abbreviation exec := (exec toDataURL clear drawImage).
Local Abbreviation run := (run toDataURL clear drawImage).
Local Abbreviation steps := (steps toDataURL clear drawImage).

(** ** The states [save] and the [clear] callback return *)

Lemma save_amend (evt : option Event) s e xs :
  is_continuation evt = true ->
  js_index (stack s) (stpos s) = Some e ->
  heap s !! data_strokes (data s) = Some xs ->
  save toDataURL evt s =
    Normal {| stack := <[Z.to_nat (stpos s) :=
                           {| image := image e;
                              strokes := length (heap s) |}]> (stack s);
              stpos := stpos s;
              pending := pending s;
              data := data s;
              heap := heap s ++ [xs] |}.
Proof.
  intros Hc He Hxs. unfold save. rewrite Hc, (slice_Some _ _ _ Hxs).
  simpl. by rewrite He.
Qed.

Lemma callbacks_clear_capture s xs :
  heap s !! data_strokes (data s) = Some xs ->
  callbacks_clear toDataURL s =
    Normal {| stack := [{| image := toDataURL (canvas (data s));
                           strokes := length (heap s) |}];
              stpos := 0;
              pending := pending s;
              data := data s;
              heap := heap s ++ [xs] |}.
Proof.
  intros Hxs. unfold callbacks_clear. rewrite reset_spec. simpl.
  by erewrite save_capture; [|done|exact Hxs].
Qed.

(** ** Repeated navigation *)

(** [prev] moves the cursor and nothing else but the images requested,
    also when it throws. *)
Lemma prev_frame s :
  stpos (state_of (prev s)) = (if 0 <? stpos s then stpos s - 1 else stpos s)
  /\ stack (state_of (prev s)) = stack s
  /\ data (state_of (prev s)) = data s
  /\ heap (state_of (prev s)) = heap s.
Proof.
  unfold prev. destruct (0 <? stpos s); simpl; [|done].
  by destruct (js_index (stack s) (stpos s - 1)).
Qed.

Lemma next_frame s :
  stpos (state_of (next s))
    = (if stpos s <? Z.of_nat (length (stack s)) - 1
       then stpos s + 1 else stpos s)
  /\ stack (state_of (next s)) = stack s
  /\ data (state_of (next s)) = data s
  /\ heap (state_of (next s)) = heap s.
Proof.
  unfold next.
  destruct (stpos s <? Z.of_nat (length (stack s)) - 1); simpl; [|done].
  by destruct (js_index (stack s) (stpos s + 1)).
Qed.

(** X1: [n] calls of [undo] in a row move the cursor down by [n] but not
    below 0 (a cursor already below 0 stays), and change neither the
    entries, nor the canvas, nor [data.strokes], nor any array. *)
Theorem undo_saturates (n : nat) s :
  let s' := run (repeat OpUndo n) s in
  stpos s' = Z.max (Z.min 0 (stpos s)) (stpos s - Z.of_nat n)
  /\ stack s' = stack s
  /\ data s' = data s
  /\ heap s' = heap s.
Proof.
  revert s. induction n as [|n IH]; intros s.
  - simpl. repeat split. lia.
  - change (repeat OpUndo (S n)) with (OpUndo :: repeat OpUndo n).
    simpl.
    destruct (prev_frame s) as (Hpos & Hstack & Hdata & Hheap).
    destruct (IH (state_of (prev s))) as (IHpos & IHstack & IHdata & IHheap).
    cbv zeta. unfold undo. rewrite IHpos, IHstack, IHdata, IHheap.
    rewrite Hpos, Hstack, Hdata, Hheap. repeat split.
    destruct (Z.ltb_spec 0 (stpos s)); lia.
Qed.

(** X2: [n] calls of [redo] in a row move the cursor up by [n] but not
    above the last index (a cursor already there or beyond stays), and
    change neither the entries, nor the canvas, nor [data.strokes], nor
    any array. *)
Theorem redo_saturates (n : nat) s :
  let s' := run (repeat OpRedo n) s in
  stpos s'
    = Z.min (Z.max (Z.of_nat (length (stack s)) - 1) (stpos s))
            (stpos s + Z.of_nat n)
  /\ stack s' = stack s
  /\ data s' = data s
  /\ heap s' = heap s.
Proof.
  revert s. induction n as [|n IH]; intros s.
  - simpl. repeat split. lia.
  - change (repeat OpRedo (S n)) with (OpRedo :: repeat OpRedo n).
    simpl.
    destruct (next_frame s) as (Hpos & Hstack & Hdata & Hheap).
    destruct (IH (state_of (next s))) as (IHpos & IHstack & IHdata & IHheap).
    cbv zeta. unfold redo. rewrite IHpos, IHstack, IHdata, IHheap.
    rewrite Hpos, Hstack, Hdata, Hheap. repeat split.
    destruct (Z.ltb_spec (stpos s) (Z.of_nat (length (stack s)) - 1)); lia.
Qed.

(** X3: on a history whose cursor is in range, an [undo] that moves
    followed by [redo], and a [redo] that moves followed by [undo], both
    return and give back the cursor; entries, canvas, [data.strokes] and
    arrays are untouched (two images are left loading).  This includes
    the [undo] from the last entry and the [redo] from the first. *)
Theorem navigation_round_trips s :
  cursor_inv s ->
  (0 < stpos s ->
   exists s1 s2,
     undo s = Normal s1 /\ redo s1 = Normal s2
     /\ stpos s2 = stpos s /\ stack s2 = stack s
     /\ data s2 = data s /\ heap s2 = heap s
     /\ length (pending s2) = (length (pending s) + 2)%nat)
  /\ (stpos s < Z.of_nat (length (stack s)) - 1 ->
      exists s1 s2,
        redo s = Normal s1 /\ undo s1 = Normal s2
        /\ stpos s2 = stpos s /\ stack s2 = stack s
        /\ data s2 = data s /\ heap s2 = heap s
        /\ length (pending s2) = (length (pending s) + 2)%nat).
Proof.
  intros [Hrange Hempty]. unfold undo, redo. split; intros Hpos.
  - destruct (prev_moves s) as (e1 & _ & Hp); [lia|].
    destruct (next_moves {| stack := stack s; stpos := stpos s - 1;
                            pending := pending s ++ [image e1];
                            data := data s; heap := heap s |})
      as (e2 & _ & Hn); [simpl; lia|].
    simpl in Hn. eexists. eexists.
    split; [exact Hp|]. split; [exact Hn|]. simpl.
    rewrite !length_app. simpl. repeat split; lia.
  - destruct (next_moves s) as (e1 & _ & Hn); [lia|].
    destruct (prev_moves {| stack := stack s; stpos := stpos s + 1;
                            pending := pending s ++ [image e1];
                            data := data s; heap := heap s |})
      as (e2 & _ & Hp); [simpl; lia|].
    simpl in Hp. eexists. eexists.
    split; [exact Hn|]. split; [exact Hp|]. simpl.
    rewrite !length_app. simpl. repeat split; lia.
Qed.

(** ** Sequences of [save] *)

Lemma save_on_last (evt : option Event) s :
  is_Some (heap s !! data_strokes (data s)) ->
  stpos s = Z.of_nat (length (stack s)) - 1 ->
  let s' := state_of (save toDataURL evt s) in
  is_Some (heap s' !! data_strokes (data s'))
  /\ stpos s' = Z.of_nat (length (stack s')) - 1
  /\ length (stack s')
     = (length (stack s) + (if is_continuation evt then 0 else 1))%nat.
Proof.
  intros [xs Hxs] Hlast. cbv zeta.
  destruct (is_continuation evt) eqn:Hc.
  - destruct (js_index (stack s) (stpos s)) as [e|] eqn:He.
    + rewrite (save_amend evt s e xs Hc He Hxs). simpl.
      rewrite length_insert. split; [|split; lia].
      exists xs. by apply alloc_lookup_old.
    + rewrite (save_continuation_no_entry toDataURL evt s xs Hc He Hxs).
      simpl. split; [|split; lia].
      exists xs. by apply alloc_lookup_old.
  - rewrite (save_capture toDataURL evt s xs Hc Hxs). simpl.
    rewrite length_app. simpl. split; [|split; lia].
    exists xs. by apply alloc_lookup_old.
Qed.

Lemma saves_on_last (evts : list (option Event)) s :
  is_Some (heap s !! data_strokes (data s)) ->
  stpos s = Z.of_nat (length (stack s)) - 1 ->
  let s' := run (map OpSave evts) s in
  is_Some (heap s' !! data_strokes (data s'))
  /\ stpos s' = Z.of_nat (length (stack s')) - 1
  /\ length (stack s') = (length (stack s) + captures evts)%nat.
Proof.
  revert s. induction evts as [|evt evts IH]; intros s Hxs Hlast.
  - simpl. split; [done|]. split; [done|lia].
  - simpl. destruct (save_on_last evt s Hxs Hlast) as (Hxs' & Hlast' & Hlen).
    destruct (IH _ Hxs' Hlast') as (IHxs & IHlast & IHlen).
    split; [exact IHxs|]. split; [exact IHlast|]. rewrite IHlen, Hlen. lia.
Qed.

(** X4: on a history as [MementoCanvas] creates it, with [data.strokes]
    an array, after any sequence of [save] calls the stack has as many
    entries as there were calls that are no continuation, and the cursor
    is on the last of them (-1 when there is none).  The call that comes
    next throws a [TypeError] and adds nothing when it is a continuation
    and there is no entry yet; in every other case it returns. *)
Theorem saves_count_captures (d : Data) h (evts : list (option Event)) :
  is_Some (h !! data_strokes d) ->
  let s := run (map OpSave evts) (MementoCanvas d h) in
  length (stack s) = captures evts
  /\ stpos s = Z.of_nat (captures evts) - 1
  /\ forall evt : option Event,
       if is_continuation evt && (captures evts =? 0)%nat
       then exists s',
              save toDataURL evt s = TypeError s'
              /\ stack s' = [] /\ stpos s' = -1
       else exists s', save toDataURL evt s = Normal s'.
Proof.
  intros Hxs.
  destruct (saves_on_last evts (MementoCanvas d h) Hxs eq_refl)
    as ([xs Hsome] & Hlast & Hlen).
  cbv zeta. simpl in Hlen. rewrite Hlast, Hlen.
  split; [done|]. split; [done|]. intros evt.
  destruct (is_continuation evt) eqn:Hc; simpl.
  - destruct (Nat.eqb_spec (captures evts) 0) as [Hzero|Hpos].
    + rewrite Hzero in Hlen. apply nil_length_inv in Hlen.
      destruct (save_continuation_throws toDataURL evt
                  (run (map OpSave evts) (MementoCanvas d h)) Hc)
        as (s' & Hthrow & Hstack & Hpos').
      { rewrite Hlast, Hlen. reflexivity. }
      exists s'. rewrite Hstack, Hpos', Hlast, Hlen. done.
    + destruct (js_index_in_range
                  (stack (run (map OpSave evts) (MementoCanvas d h)))
                  (stpos (run (map OpSave evts) (MementoCanvas d h))))
        as [e He]; [lia|].
      rewrite (save_amend evt _ e xs Hc He Hsome). by eexists.
  - rewrite (save_capture toDataURL evt _ xs Hc Hsome). by eexists.
Qed.

(** ** The arrays *)

(** Every event leaves the arrays that exist as they are and at most adds
    new ones. *)
Lemma exec_heap_extends (o : op) s :
  exists l, heap (state_of (exec o s)) = heap s ++ l.
Proof.
  assert (Hnav : forall f : @State Pixels Stroke -> @completion Pixels Stroke,
             heap (state_of (f s)) = heap s ->
             exists l, heap (state_of (f s)) = heap s ++ l).
  { intros f ->. exists []. by rewrite app_nil_r. }
  assert (Hsave : forall evt (t : @State Pixels Stroke),
             exists l, heap (state_of (save toDataURL evt t)) = heap t ++ l).
  { intros evt t. unfold save.
    destruct (is_continuation evt);
      destruct (slice (heap t) (data_strokes (data t))) as [[a h']|] eqn:Hs;
      simpl; try (exists []; by rewrite app_nil_r);
      apply slice_inv in Hs as (ys & _ & _ & ->).
    - destruct (js_index (stack t) (stpos t)); simpl; eauto.
    - eauto. }
  destruct o as [ | | |evt| |evt| |ke|k]; simpl.
  - apply (Hnav prev), prev_frame.
  - apply (Hnav next), next_frame.
  - exists []. by rewrite app_nil_r.
  - apply Hsave.
  - destruct (Hsave None (state_of (reset s))) as [l Hl].
    exists l. exact Hl.
  - apply Hsave.
  - exists []. by rewrite app_nil_r.
  - unfold keyManager, undo, redo.
    destruct (ctrlKey ke); simpl; [|exists []; by rewrite app_nil_r].
    destruct (which ke =? 26); [destruct (shiftKey ke)|];
      [apply (Hnav next), next_frame|apply (Hnav prev), prev_frame|].
    destruct (which ke =? 25); [apply (Hnav next), next_frame|].
    exists []. by rewrite app_nil_r.
  - unfold onload, restore.
    destruct (pending s !! k); simpl; [|exists []; by rewrite app_nil_r].
    destruct (js_index (stack s) (stpos s)) as [e|]; simpl;
      [|exists []; by rewrite app_nil_r].
    destruct (slice (heap s) (strokes e)) as [[a h']|] eqn:Hs; simpl;
      [|exists []; by rewrite app_nil_r].
    apply slice_inv in Hs as (ys & _ & _ & ->). eauto.
Qed.

(** X5: no event sequence ever writes to an array that exists, be it
    [data.strokes] of the host or the array of an entry: its elements
    after the sequence are its elements before. *)
Theorem arrays_never_written (ops : list op) s a xs :
  heap s !! a = Some xs ->
  heap (run ops s) !! a = Some xs.
Proof.
  revert s. induction ops as [|o ops IH]; intros s Hxs; simpl; [done|].
  apply IH. destruct (exec_heap_extends o s) as [l ->].
  by apply lookup_app_l_Some.
Qed.

(** ** References stay allocated *)

Lemma heap_inv_frame s s' :
  stack s' = stack s -> data s' = data s -> heap s' = heap s ->
  heap_inv s -> heap_inv s'.
Proof. unfold heap_inv. intros -> -> ->. done. Qed.

Lemma save_heap_inv (evt : option Event) s :
  heap_inv s -> heap_inv (state_of (save toDataURL evt s)).
Proof.
  intros Hinv. pose proof Hinv as [Hd Hst]. unfold save.
  destruct (is_continuation evt);
    destruct (slice (heap s) (data_strokes (data s))) as [[a h']|] eqn:Hs;
    simpl; try done;
    apply slice_inv in Hs as (ys & _ & -> & ->).
  - destruct (js_index (stack s) (stpos s)) as [e|]; simpl.
    + unfold heap_inv. simpl. rewrite length_app. simpl.
      split; [lia|]. apply Forall_insert; [|simpl; lia].
      eapply Forall_impl; [exact Hst|]. simpl. intros; lia.
    + unfold heap_inv. simpl. rewrite length_app. simpl.
      split; [lia|]. eapply Forall_impl; [exact Hst|]. simpl. intros; lia.
  - unfold heap_inv. simpl. rewrite length_app. simpl.
    split; [lia|]. apply Forall_app. split.
    + eapply Forall_impl; [exact Hst|]. simpl. intros; lia.
    + apply Forall_singleton. simpl. lia.
Qed.

Lemma onload_heap_inv (k : nat) s :
  heap_inv s -> heap_inv (state_of (onload clear drawImage k s)).
Proof.
  intros Hinv. pose proof Hinv as [Hd Hst]. unfold onload, restore.
  destruct (pending s !! k); simpl; [|done].
  destruct (js_index (stack s) (stpos s)) as [e|]; simpl; [|done].
  destruct (slice (heap s) (strokes e)) as [[a h']|] eqn:Hs; simpl;
    [|done].
  apply slice_inv in Hs as (ys & _ & -> & ->).
  unfold heap_inv. simpl. rewrite length_app. simpl.
  split; [lia|]. eapply Forall_impl; [exact Hst|]. simpl. intros; lia.
Qed.

Lemma exec_heap_inv (o : op) s :
  heap_inv s -> heap_inv (state_of (exec o s)).
Proof.
  intros Hinv.
  assert (Hprev : heap_inv (state_of (prev s))).
  { destruct (prev_frame s) as (_ & ? & ? & ?).
    by apply (heap_inv_frame s). }
  assert (Hnext : heap_inv (state_of (next s))).
  { destruct (next_frame s) as (_ & ? & ? & ?).
    by apply (heap_inv_frame s). }
  assert (Hreset : heap_inv (state_of (reset s))).
  { destruct Hinv as [Hd _]. unfold heap_inv. simpl. by split. }
  destruct o as [ | | |evt| |evt| |ke|k]; simpl; try done.
  - by apply save_heap_inv.
  - by apply (save_heap_inv None (state_of (reset s))).
  - by apply save_heap_inv.
  - unfold keyManager, undo, redo.
    destruct (ctrlKey ke); [|done].
    destruct (which ke =? 26); [by destruct (shiftKey ke)|].
    by destruct (which ke =? 25).
  - by apply onload_heap_inv.
Qed.

(** X6: if [data.strokes] and the [strokes] of every entry are arrays
    that exist, they still are after any event sequence, exceptions
    included. *)
Theorem references_stay_allocated (ops : list op) s :
  heap_inv s -> heap_inv (run ops s).
Proof.
  revert s. induction ops as [|o ops IH]; intros s Hinv; simpl; [done|].
  apply IH. by apply exec_heap_inv.
Qed.

(** ** No exception while an entry exists *)

Lemma entry_under_cursor s :
  cursor_inv s -> stack s <> [] ->
  exists e, js_index (stack s) (stpos s) = Some e.
Proof.
  intros [Hrange Hempty] Hne.
  assert (length (stack s) <> 0%nat).
  { intros H. by apply length_zero_iff_nil in H. }
  apply js_index_in_range. lia.
Qed.

Lemma prev_returns s :
  cursor_inv s -> exists s', prev s = Normal s' /\ stack s' = stack s.
Proof.
  intros [Hrange _]. destruct (Z.le_gt_cases (stpos s) 0) as [H|H].
  - exists s. by rewrite prev_boundary.
  - destruct (prev_moves s) as (e & _ & ->); [lia|]. by eexists.
Qed.

Lemma next_returns s :
  cursor_inv s -> exists s', next s = Normal s' /\ stack s' = stack s.
Proof.
  intros [Hrange _].
  destruct (Z.le_gt_cases (Z.of_nat (length (stack s)) - 1) (stpos s))
    as [H|H].
  - exists s. by rewrite next_boundary.
  - destruct (next_moves s) as (e & _ & ->); [lia|]. by eexists.
Qed.

Lemma save_returns (evt : option Event) s :
  heap_inv s ->
  (is_continuation evt = true -> is_Some (js_index (stack s) (stpos s))) ->
  exists s', save toDataURL evt s = Normal s' /\ stack s' <> [].
Proof.
  intros [Hd _] Hentry.
  apply lookup_lt_is_Some in Hd as [xs Hxs].
  destruct (is_continuation evt) eqn:Hc.
  - destruct Hentry as [e He]; [done|].
    rewrite (save_amend evt s e xs Hc He Hxs).
    eexists. split; [done|]. simpl. intros Hnil.
    apply js_index_Some in He as [_ He]. apply lookup_lt_Some in He.
    apply (f_equal length) in Hnil. rewrite length_insert in Hnil.
    simpl in Hnil. lia.
  - rewrite (save_capture toDataURL evt s xs Hc Hxs).
    eexists. split; [done|]. simpl. by destruct (stack s).
Qed.

Lemma exec_returns (o : op) s :
  cursor_inv s -> heap_inv s -> stack s <> [] -> empties o = false ->
  exists s', exec o s = Normal s' /\ stack s' <> [].
Proof.
  intros Hc Hh Hne Ho.
  destruct (entry_under_cursor s Hc Hne) as [e He].
  assert (Hprev : exists s', prev s = Normal s' /\ stack s' <> []).
  { destruct (prev_returns s Hc) as (s' & -> & Hs). exists s'.
    by rewrite Hs. }
  assert (Hnext : exists s', next s = Normal s' /\ stack s' <> []).
  { destruct (next_returns s Hc) as (s' & -> & Hs). exists s'.
    by rewrite Hs. }
  destruct o as [ | | |evt| |evt| |ke|k]; simpl; try done.
  - apply save_returns; eauto.
  - unfold callbacks_clear. rewrite reset_spec. simpl.
    apply save_returns; [|done].
    destruct Hh as [Hd _]. unfold heap_inv. simpl. by split.
  - apply save_returns; eauto.
  - unfold keyManager, undo, redo.
    destruct (ctrlKey ke); [|by exists s].
    destruct (which ke =? 26); [by destruct (shiftKey ke)|].
    destruct (which ke =? 25); [done|by exists s].
  - destruct (pending s !! k) as [src|] eqn:Hk.
    + destruct (heap_inv_entry s _ e Hh He) as [xs Hxs].
      rewrite (onload_applies clear drawImage k src s e xs Hk He Hxs).
      by eexists.
    + unfold onload. rewrite Hk. by exists s.
Qed.

(** X7: on a history with at least one entry, the cursor in range and
    every reference allocated, no sequence of events other than [reset]
    and [destroy] raises an exception: every event returns, and the
    history still has an entry, its cursor in range and its references
    allocated. *)
Theorem no_exception_while_attached (ops : list op) s :
  cursor_inv s ->
  heap_inv s ->
  stack s <> [] ->
  forallb (fun o => negb (empties o)) ops = true ->
  exists s',
    steps ops s = Normal s'
    /\ s' = run ops s
    /\ cursor_inv s' /\ heap_inv s' /\ stack s' <> [].
Proof.
  revert s. induction ops as [|o ops IH]; intros s Hc Hh Hne Hops; simpl.
  - by exists s.
  - simpl in Hops. apply andb_prop in Hops as [Ho Hops].
    apply negb_true_iff in Ho.
    destruct (exec_returns o s Hc Hh Hne Ho) as (s1 & Hs1 & Hne1).
    pose proof (exec_cursor_inv toDataURL clear drawImage o s Hc) as Hc1.
    pose proof (exec_heap_inv o s Hh) as Hh1.
    rewrite Hs1 in *. simpl in *. by apply IH.
Qed.

(** ** Images that load after the history is replaced *)

(** X8: [reset] does not cancel an image that is loading.  When that
    image loads on the reset history, the canvas is cleared and the image
    drawn, and then [restore] throws on [stack[stpos]]: [data.strokes],
    the arrays and the empty history stay as they are. *)
Theorem load_after_reset_repaints (k : nat) (src : DataURL) s :
  pending s !! k = Some src ->
  exists s1 s2,
    reset s = Normal s1
    /\ onload clear drawImage k s1 = TypeError s2
    /\ canvas (data s2) = drawImage src (clear (canvas (data s)))
    /\ data_strokes (data s2) = data_strokes (data s)
    /\ heap s2 = heap s
    /\ stack s2 = []
    /\ stpos s2 = -1
    /\ pending s2 = delete k (pending s).
Proof.
  intros Hk. eexists. eexists. split; [reflexivity|].
  unfold onload, restore. simpl. rewrite Hk. simpl. by repeat split.
Qed.


(** ** Entries between resets *)

Lemma exec_keeps_images (o : op) s (i : nat) e :
  resets o = false ->
  stack s !! i = Some e ->
  exists e', stack (state_of (exec o s)) !! i = Some e'
             /\ image e' = image e.
Proof.
  intros Ho Hi.
  assert (Hsame : forall s' : @State Pixels Stroke,
             stack s' = stack s ->
             exists e', stack s' !! i = Some e' /\ image e' = image e).
  { intros s' ->. eauto. }
  assert (Hsave : forall evt,
             exists e', stack (state_of (save toDataURL evt s)) !! i = Some e'
                        /\ image e' = image e).
  { intros evt. destruct (is_continuation evt) eqn:Hc.
    - unfold save. rewrite Hc.
      destruct (slice (heap s) (data_strokes (data s))) as [[a h']|];
        simpl; [|eauto].
      destruct (js_index (stack s) (stpos s)) as [e0|] eqn:He0; simpl;
        [|eauto].
      apply js_index_Some in He0 as [_ He0].
      destruct (decide (i = Z.to_nat (stpos s))) as [->|Hne].
      + rewrite list_lookup_insert_eq by (eapply lookup_lt_Some; eauto).
        eexists. split; [done|]. simpl. congruence.
      + rewrite list_lookup_insert_ne by done. eauto.
    - unfold save. rewrite Hc.
      destruct (slice (heap s) (data_strokes (data s))) as [[a h']|];
        simpl; [|eauto].
      exists e. split; [by apply lookup_app_l_Some|done]. }
  destruct o as [ | | |evt| |evt| |ke|k]; simpl; try discriminate Ho.
  - apply Hsame, prev_frame.
  - apply Hsame, next_frame.
  - apply Hsave.
  - apply Hsave.
  - unfold keyManager, undo, redo.
    destruct (ctrlKey ke); [|eauto].
    destruct (which ke =? 26); [destruct (shiftKey ke)|];
      [apply Hsame, next_frame|apply Hsame, prev_frame|].
    destruct (which ke =? 25); [apply Hsame, next_frame|eauto].
  - apply Hsame. unfold onload, restore.
    destruct (pending s !! k); simpl; [|done].
    destruct (js_index (stack s) (stpos s)) as [e0|]; simpl; [|done].
    by destruct (slice (heap s) (strokes e0)) as [[a h']|].
Qed.

(** X10: along a sequence of events without [reset], [clear] and
    [destroy], an entry never leaves its index and never changes its
    image: the history only grows at its end. *)
Theorem history_append_only (ops : list op) s (i : nat) e :
  forallb (fun o => negb (resets o)) ops = true ->
  stack s !! i = Some e ->
  exists e', stack (run ops s) !! i = Some e' /\ image e' = image e.
Proof.
  revert s e. induction ops as [|o ops IH]; intros s e Hops Hi; simpl.
  - eauto.
  - simpl in Hops. apply andb_prop in Hops as [Ho Hops].
    apply negb_true_iff in Ho.
    destruct (exec_keeps_images o s i e Ho Hi) as (e1 & Hi1 & Himg1).
    destruct (IH _ e1 Hops Hi1) as (e' & Hi' & Himg').
    exists e'. split; [done|]. congruence.
Qed.

(** ** Captured strokes *)

(** X11: a [save] that returns has put into the entry it wrote (the new
    last entry, or for a continuation the entry under the cursor) a new
    array with the elements of [data.strokes]; the array is not
    [data.strokes] itself, so a later push onto [data.strokes] does not
    reach the entry. *)
Theorem save_copies_strokes (evt : option Event) s s' :
  save toDataURL evt s = Normal s' ->
  exists (i : nat) e xs,
    i = (if is_continuation evt
         then Z.to_nat (stpos s) else length (stack s))
    /\ stack s' !! i = Some e
    /\ heap s !! data_strokes (data s) = Some xs
    /\ heap s !! strokes e = None
    /\ heap s' !! strokes e = Some xs
    /\ strokes e <> data_strokes (data s')
    /\ forall x : Stroke,
         array_push (data_strokes (data s')) x (heap s') !! strokes e
         = Some xs.
Proof.
  unfold save.
  destruct (slice (heap s) (data_strokes (data s))) as [[a h']|] eqn:Hs;
    [|by destruct (is_continuation evt)].
  apply slice_inv in Hs as (xs & Hxs & -> & ->).
  assert (Hne : length (heap s) <> data_strokes (data s)).
  { apply lookup_lt_Some in Hxs. lia. }
  destruct (is_continuation evt); simpl.
  - destruct (js_index (stack s) (stpos s)) as [e0|] eqn:He0; [|done].
    intros [= <-]. simpl.
    apply js_index_Some in He0 as [_ He0].
    eexists _, _, xs. split; [reflexivity|]. split.
    { apply list_lookup_insert_eq. eapply lookup_lt_Some; eauto. }
    simpl. split; [done|]. split; [apply alloc_fresh|].
    split; [apply alloc_lookup_new|]. split; [done|].
    intros x. unfold array_push.
    rewrite list_lookup_alter_ne by done. apply alloc_lookup_new.
  - intros [= <-]. simpl.
    eexists _, _, xs. split; [reflexivity|]. split.
    { by rewrite lookup_app_r, Nat.sub_diag. }
    simpl. split; [done|]. split; [apply alloc_fresh|].
    split; [apply alloc_lookup_new|]. split; [done|].
    intros x. unfold array_push.
    rewrite list_lookup_alter_ne by done. apply alloc_lookup_new.
Qed.

Lemma steps_cons_normal (o : op) (ops : list op) s s1 :
  exec o s = Normal s1 -> steps (o :: ops) s = steps ops s1.
Proof. intros H. simpl. by rewrite H. Qed.

(** X12: a capture made with the cursor on the last entry can be brought
    back.  Whatever the host then paints on the canvas and pushes onto
    [data.strokes], after [undo], [redo] and the load of the image that
    [redo] requested, the canvas is the cleared canvas with the captured
    encoding drawn on it and [data.strokes] has the elements it had at the
    time of the capture. *)
Theorem capture_restore_round_trip (evt : option Event) s xs
    (p : Pixels) (x : Stroke) :
  is_continuation evt = false ->
  heap s !! data_strokes (data s) = Some xs ->
  stack s <> [] ->
  stpos s = Z.of_nat (length (stack s)) - 1 ->
  exists s1 s2,
    save toDataURL evt s = Normal s1
    /\ steps [OpUndo; OpRedo; OpOnload (S (length (pending s)))]
         (set_canvas p
            (set_heap (array_push (data_strokes (data s1)) x (heap s1)) s1))
       = Normal s2
    /\ canvas (data s2) = drawImage (toDataURL (canvas (data s))) (clear p)
    /\ heap s2 !! data_strokes (data s2) = Some xs
    /\ stpos s2 = stpos s1
    /\ stack s2 = stack s1.
Proof.
  intros Hc Hxs Hne Hlast.
  assert (Hlen : (0 < length (stack s))%nat).
  { destruct (stack s); [done|simpl; lia]. }
  pose (new := {| image := toDataURL (canvas (data s));
                  strokes := length (heap s) |}).
  pose (h1 := array_push (data_strokes (data s)) x (heap s ++ [xs])).
  assert (Hcopy : h1 !! length (heap s) = Some xs).
  { subst h1. unfold array_push. rewrite list_lookup_alter_ne.
    - apply alloc_lookup_new.
    - apply lookup_lt_Some in Hxs. lia. }
  pose (t := {| stack := stack s ++ [new]; stpos := stpos s + 1;
                pending := pending s;
                data := {| canvas := p;
                           data_strokes := data_strokes (data s) |};
                heap := h1 |}).
  destruct (prev_moves t) as (e1 & _ & Hp).
  { simpl. rewrite length_app. simpl. lia. }
  simpl in Hp. replace (stpos s + 1 - 1) with (stpos s) in Hp by lia.
  pose (t1 := {| stack := stack s ++ [new]; stpos := stpos s;
                 pending := pending s ++ [image e1];
                 data := data t; heap := h1 |}).
  destruct (next_moves t1) as (e2 & He2 & Hn).
  { simpl. rewrite length_app. simpl. lia. }
  simpl in He2, Hn.
  assert (Hnew : js_index (stack s ++ [new]) (stpos s + 1) = Some new).
  { replace (stpos s + 1) with (Z.of_nat (length (stack s))) by lia.
    rewrite js_index_of_nat. by rewrite lookup_app_r, Nat.sub_diag. }
  rewrite Hnew in He2. injection He2 as <-.
  pose (t2 := {| stack := stack s ++ [new]; stpos := stpos s + 1;
                 pending := (pending s ++ [image e1]) ++ [image new];
                 data := data t; heap := h1 |}).
  assert (Hload := onload_applies clear drawImage
                     (S (length (pending s))) (image new) t2 new xs).
  simpl in Hload.
  assert (Hk : ((pending s ++ [image e1]) ++ [toDataURL (canvas (data s))])
                 !! S (length (pending s))
               = Some (toDataURL (canvas (data s)))).
  { rewrite lookup_app_r; rewrite length_app; simpl; [|lia].
    by replace (S (length (pending s)) - (length (pending s) + 1))%nat
         with 0%nat by lia. }
  specialize (Hload Hk Hnew Hcopy).
  eexists. eexists. split; [by apply save_capture|].
  split.
  - etrans; [apply (steps_cons_normal OpUndo _ t _ Hp)|].
    etrans; [apply (steps_cons_normal OpRedo _ _ _ Hn)|].
    etrans; [apply (steps_cons_normal (OpOnload _) _ _ _ Hload)|].
    reflexivity.
  - simpl. repeat split. apply alloc_lookup_new.
Qed.

(** ** Keys *)

(** X13: a key event acts only as Ctrl+Z ([undo]), Ctrl+Shift+Z and
    Ctrl+Y ([redo]); without Ctrl, or with any other key, the state is
    returned as it is.  In no case does it change the entries, the
    canvas, [data.strokes] or an array. *)
Theorem keyManager_only_navigates (ke : KeyEvent) s :
  (keyManager ke s = undo s
   \/ keyManager ke s = redo s
   \/ keyManager ke s = Normal s)
  /\ (ctrlKey ke = true -> which ke = 26 -> shiftKey ke = false ->
      keyManager ke s = undo s)
  /\ (ctrlKey ke = true -> which ke = 26 -> shiftKey ke = true ->
      keyManager ke s = redo s)
  /\ (ctrlKey ke = true -> which ke = 25 -> keyManager ke s = redo s)
  /\ (ctrlKey ke = false \/ (which ke <> 25 /\ which ke <> 26) ->
      keyManager ke s = Normal s)
  /\ stack (state_of (keyManager ke s)) = stack s
  /\ data (state_of (keyManager ke s)) = data s
  /\ heap (state_of (keyManager ke s)) = heap s.
Proof.
  unfold keyManager.
  destruct (ctrlKey ke) eqn:Hctrl;
    destruct (Z.eqb_spec (which ke) 26) as [H26|H26];
    destruct (Z.eqb_spec (which ke) 25) as [H25|H25];
    destruct (shiftKey ke) eqn:Hshift;
    unfold undo, redo;
    destruct (prev_frame s) as (_ & ? & ? & ?);
    destruct (next_frame s) as (_ & ? & ? & ?);
    repeat split; auto; try congruence; try lia;
    try (intros [?|[? ?]]; congruence).
Qed.

End History.

(** * Properties of the plugin constructor *)

Section Wiring.

Context {Pixels Stroke : Type}.
Variable toDataURL : Pixels -> DataURL.

Implicit Types (s : @State Pixels Stroke) (o : @Options Pixels Stroke).
Implicit Types (evs : gmap string (@value Pixels Stroke)) (ev : string).

(** ** [override] *)

Lemma override_bound ev o :
  props o !! String.append ev "$bound" = Some true ->
  override toDataURL ev o = Returned o.
Proof. intros H. unfold override. by rewrite H. Qed.

(** Returning or throwing, [override] leaves the flag of its event set
    and the flags that were set as they were. *)
Lemma override_flags ev o :
  props (outcome_value (override toDataURL ev o))
    !! String.append ev "$bound" = Some true
  /\ forall k : string,
       props o !! k = Some true ->
       props (outcome_value (override toDataURL ev o)) !! k = Some true.
Proof.
  unfold override.
  destruct (props o !! String.append ev "$bound") as [[|]|] eqn:Hflag;
    [done| |];
    (assert (Hkeep : forall k : string,
               props o !! k = Some true ->
               <[String.append ev "$bound" := true]> (props o) !! k
               = Some true)
       by (intros k Hk;
           destruct (decide (String.append ev "$bound" = k)) as [<-|Hne];
           [by rewrite lookup_insert_eq|by rewrite lookup_insert_ne]));
    simpl;
    (destruct (options_events o) as [evs|]; simpl;
     [destruct (evs !! ev) as [[fn|]|]; simpl|]);
    (split; [by rewrite lookup_insert_eq|exact Hkeep]).
Qed.

(** X14: [override] on the result of [override] for the same event
    returns it unchanged: a handler is wrapped at most once, and an
    [override] that threw is not tried again. *)
Theorem override_once ev o :
  override toDataURL ev (outcome_value (override toDataURL ev o))
  = Returned (outcome_value (override toDataURL ev o)).
Proof.
  destruct (override_flags ev o) as [Hflag _]. by apply override_bound.
Qed.

(** X15: with [config.options.events] undefined and the flag not yet set,
    [override] sets the flag and then throws on the assignment to
    [config.options.events[ev]]; [events] stays undefined, and a second
    call returns without installing the callback. *)
Theorem override_without_events ev o :
  options_events o = None ->
  props o !! String.append ev "$bound" <> Some true ->
  exists o',
    override toDataURL ev o = Thrown o'
    /\ props o' = <[String.append ev "$bound" := true]> (props o)
    /\ options_events o' = None
    /\ override toDataURL ev o' = Returned o'.
Proof.
  intros Hev Hflag. eexists.
  assert (Hthrow : override toDataURL ev o
                   = Thrown {| props := <[String.append ev "$bound" := true]>
                                          (props o);
                               options_events := options_events o |}).
  { unfold override.
    destruct (props o !! String.append ev "$bound") as [[|]|];
      [done| |]; simpl; by rewrite Hev. }
  split; [exact Hthrow|]. simpl. split; [done|]. split; [done|].
  apply override_bound. simpl. by rewrite lookup_insert_eq.
Qed.

(** What [override] installs when the flag is not set and [events] is an
    object. *)
Lemma override_installs ev o evs :
  options_events o = Some evs ->
  props o !! String.append ev "$bound" <> Some true ->
  override toDataURL ev o
  = Returned
      {| props := <[String.append ev "$bound" := true]> (props o);
         options_events :=
           Some (<[ev := match evs !! ev with
                         | Some (VFunction fn) =>
                             VFunction
                               (fun evt s =>
                                  and_then (fn evt s)
                                    (apply_handler (callbacks toDataURL ev)
                                                   evt))
                         | _ => as_value (callbacks toDataURL ev)
                         end]> evs) |}.
Proof.
  intros Hev Hflag. unfold override.
  destruct (props o !! String.append ev "$bound") as [[|]|];
    [done| |]; simpl; rewrite Hev;
    by destruct (evs !! ev) as [[fn|]|].
Qed.

(** X16: after [override] of ['clear'] over a handler [fn] of the user,
    the handler installed runs [fn] first and the plugin's callback on
    the state [fn] left.  If [fn] throws the callback is not run; if [fn]
    returns with [data.strokes] an array, the history has exactly one
    entry, the capture of the canvas as [fn] left it, with the cursor on
    it.  The handlers of other events are untouched. *)
Theorem override_wraps_clear o evs (fn : handler) :
  options_events o = Some evs ->
  props o !! String.append "clear" "$bound" <> Some true ->
  evs !! "clear"%string = Some (VFunction fn) ->
  exists o' evs' (f : handler),
    override toDataURL "clear" o = Returned o'
    /\ options_events o' = Some evs'
    /\ evs' !! "clear"%string = Some (VFunction f)
    /\ (forall k : string, k <> "clear"%string -> evs' !! k = evs !! k)
    /\ (forall evt s s1,
          fn evt s = TypeError s1 -> f evt s = TypeError s1)
    /\ (forall evt s s1 xs,
          fn evt s = Normal s1 ->
          heap s1 !! data_strokes (data s1) = Some xs ->
          exists s2,
            f evt s = Normal s2
            /\ stack s2 = [{| image := toDataURL (canvas (data s1));
                              strokes := length (heap s1) |}]
            /\ stpos s2 = 0
            /\ heap s2 !! length (heap s1) = Some xs).
Proof.
  intros Hev Hflag Hfn.
  rewrite (override_installs _ _ _ Hev Hflag), Hfn.
  eexists _, _, _. split; [reflexivity|]. simpl.
  split; [reflexivity|]. split; [by rewrite lookup_insert_eq|].
  split; [intros k Hk; by rewrite lookup_insert_ne|].
  split.
  - intros evt s s1 Hthrow. by rewrite Hthrow.
  - intros evt s s1 xs Hret Hxs. rewrite Hret. simpl.
    rewrite (callbacks_clear_capture toDataURL s1 xs Hxs).
    eexists. split; [reflexivity|]. simpl. repeat split.
    apply alloc_lookup_new.
Qed.

(** ** The constructor *)

Lemma override_each_flags (evl : list string) o o1 :
  override_each toDataURL evl o = Returned o1 ->
  (forall ev, ev ∈ evl -> props o1 !! String.append ev "$bound" = Some true)
  /\ (forall k : string, props o !! k = Some true -> props o1 !! k = Some true).
Proof.
  revert o. induction evl as [|ev evl IH]; intros o; simpl.
  - intros [= <-]. split; [|done]. intros ev Hin. by apply elem_of_nil in Hin.
  - destruct (override_flags ev o) as [Hset Hkeep].
    destruct (override toDataURL ev o) as [o2|o2]; [|done].
    simpl in Hset, Hkeep. intros Heach.
    destruct (IH _ Heach) as [IHset IHkeep]. split.
    + intros ev' Hin. apply elem_of_cons in Hin as [->|Hin]; auto.
    + auto.
Qed.

Lemma override_each_bound (evl : list string) o :
  (forall ev, ev ∈ evl -> props o !! String.append ev "$bound" = Some true) ->
  override_each toDataURL evl o = Returned o.
Proof.
  induction evl as [|ev evl IH]; intros Hall; simpl; [done|].
  rewrite override_bound by (apply Hall; left).
  apply IH. intros ev' Hin. apply Hall. by right.
Qed.



(** X18: once the constructor has returned, running it again on the same
    configuration leaves [config.options] as it is: no handler is wrapped
    a second time, so no callback fires twice for one event. *)
Theorem plugin_overrides_once (c c1 : @Config Pixels Stroke) (d d' : Data)
    (h h' : list (list Stroke)) :
  plugins_memento toDataURL c d h = Returned c1 ->
  options (outcome_value (plugins_memento toDataURL c1 d' h')) = options c1.
Proof.
  unfold plugins_memento.
  destruct (override_each toDataURL events (options c)) as [o1|o1] eqn:Heach;
    [|done].
  destruct (memento toDataURL d h); [|done]. intros [= <-].
  cbn [options config_memento].
  rewrite override_each_bound by apply (override_each_flags _ _ _ Heach).
  by destruct (memento toDataURL d' h').
Qed.

End Wiring.

(** * Concrete runs *)

Section Runs.

Local Open Scope string_scope.

(** The walk through the history of the specification's section 8: one
    entry after attachment; a release adds one; a continuation adds none;
    [undo] twice stops at 0; [redo] goes back to 1; [clear] leaves one. *)
Example history_walk :
  map (fun ops => let s := Demo.run ops Demo.attached in
                  (length (stack s), stpos s))
      [ [];
        [OpMouseup Demo.mouse_up];
        [OpMouseup Demo.mouse_up; OpMouseup Demo.touch_end];
        [OpMouseup Demo.mouse_up; OpMouseup Demo.touch_end; OpUndo];
        [OpMouseup Demo.mouse_up; OpMouseup Demo.touch_end; OpUndo; OpUndo];
        [OpMouseup Demo.mouse_up; OpMouseup Demo.touch_end; OpUndo; OpUndo;
         OpRedo];
        [OpMouseup Demo.mouse_up; OpMouseup Demo.touch_end; OpUndo; OpUndo;
         OpRedo; OpClear] ]
  = [ (1%nat, 0); (2%nat, 1); (2%nat, 1); (2%nat, 0); (2%nat, 0);
      (2%nat, 1); (1%nat, 0) ].
Proof. reflexivity. Qed.

(** C2: [save] advances the cursor by one and does not set it to the last
    index.  On two captures with the cursor on the second, after an [undo]
    has been restored, the release of the mouse button makes a third
    entry, and the cursor is 1, not 2: it is on the old second entry.  A
    continuation that follows writes the strokes of that old entry and
    not those of the capture just made. *)
Theorem save_after_undo_misses_last_index :
  let s0 := Demo.run [OpUndo; OpOnload 0%nat] Demo.two_entries in
  exists s s',
    stpos s0 = 0
    /\ Demo.save Demo.mouse_up s0 = Normal s
    /\ length (stack s) = 3%nat
    /\ stpos s = 1
    /\ stpos s <> Z.of_nat (length (stack s)) - 1
    /\ js_index (stack s) (stpos s)
       = Some {| image := "one"; strokes := 2%nat |}
    /\ stack s !! 2%nat = Some {| image := "blank"; strokes := 4%nat |}
    /\ Demo.save Demo.touch_end s = Normal s'
    /\ stack s' !! 1%nat = Some {| image := "one"; strokes := 5%nat |}
    /\ stack s' !! 2%nat = Some {| image := "blank"; strokes := 4%nat |}.
Proof.
  eexists. eexists.
  split; [reflexivity|]. split; [vm_compute; reflexivity|].
  split; [reflexivity|]. split; [reflexivity|]. split; [discriminate|].
  split; [reflexivity|]. split; [reflexivity|].
  split; [vm_compute; reflexivity|]. split; reflexivity.
Qed.

(** C1 fails on the code: with the images of an [undo] and of the [redo]
    after it both loading, the cursor is back on the second entry, yet the
    [onload] of the image requested by [undo] repaints the canvas.  When
    that image loads last, the canvas ends with the picture of the [undo]
    target. *)
Lemma stale_decode_is_applied :
  let s := Demo.run [OpUndo; OpRedo] Demo.two_entries in
  (stpos s = 1
   /\ pending s = ["blank"; "one"]
   /\ image <$> js_index (stack s) (stpos s) = Some "one")
  /\ ~ stale_decode_dropped Demo.clear Demo.drawImage s
  /\ canvas (data (Demo.run [OpOnload 0%nat] s)) = "blank"
  /\ canvas (data (Demo.run [OpOnload 1%nat; OpOnload 0%nat] s)) = "blank".
Proof.
  split; [by vm_compute|]. split; [|by vm_compute].
  intros Hdrop.
  specialize (Hdrop 0%nat "blank" eq_refl).
  vm_compute in Hdrop.
  assert (Hne : Some "one" = Some "blank" -> False) by discriminate.
  specialize (Hdrop Hne). discriminate.
Qed.

Lemma decode_completions_are_applied_witness :
  (pending (Demo.run [OpUndo; OpRedo] Demo.two_entries) !! 0%nat
     = Some "blank"
   /\ cursor_inv Demo.two_entries /\ heap_inv Demo.two_entries
   /\ 0 < stpos Demo.two_entries)
  /\ (exists s',
        Demo.onload 0%nat (Demo.run [OpUndo; OpRedo] Demo.two_entries)
          = Normal s'
        /\ canvas (data s') = "blank"
        /\ data_strokes (data s') <> 2%nat
        /\ heap s' !! data_strokes (data s') = Some [7%nat])
  /\ (exists s1 s2 s3 s4,
        undo Demo.two_entries = Normal s1
        /\ redo s1 = Normal s2
        /\ Demo.onload 0%nat s2 = Normal s3
        /\ Demo.onload 0%nat s3 = Normal s4
        /\ data_strokes (data s4) <> data_strokes (data s3)
        /\ stpos s4 = 1
        /\ stack s4 = stack Demo.two_entries
        /\ pending s4 = []).
Proof.
  assert (Hc : cursor_inv Demo.two_entries) by by_decide.
  assert (Hh : heap_inv Demo.two_entries) by by_decide.
  assert (Hp : 0 < stpos Demo.two_entries) by reflexivity.
  split; [auto|].
  destruct (decode_completions_are_applied (Stroke := nat) Demo.clear Demo.drawImage)
    as [Hany Hrun].
  split.
  - destruct (Hany 0%nat "blank"
                (Demo.run [OpUndo; OpRedo] Demo.two_entries)
                {| image := "one"; strokes := 2%nat |} [7%nat]
                eq_refl eq_refl eq_refl)
      as (s' & Hload & (Hcanvas & _ & Hne & _) & Hcopy & _).
    exists s'. auto.
  - destruct (Hrun Demo.two_entries Hc Hh Hp)
      as (e0 & e & xs & s1 & s2 & s3 & s4 & _ & _ & _ & H1 & H2 & _ & _
          & _ & H3 & _ & _ & H4 & _ & _ & Hne & Hpos & Hstack & Hpend).
    exists s1, s2, s3, s4. auto 10.
Defined.

Lemma save_continuation_amends_witness :
  (is_continuation Demo.touch_end = true
   /\ js_index (stack Demo.two_entries) (stpos Demo.two_entries)
      = Some {| image := "one"; strokes := 2%nat |}
   /\ heap Demo.two_entries !! data_strokes (data Demo.two_entries)
      = Some [7%nat])
  /\ exists s',
       Demo.save Demo.touch_end Demo.two_entries = Normal s'
       /\ length (stack s') = 2%nat
       /\ stpos s' = 1
       /\ js_index (stack s') (stpos s')
          = Some {| image := "one"; strokes := 3%nat |}
       /\ heap s' !! 3%nat = Some [7%nat].
Proof.
  split; [by repeat split|].
  destruct (save_continuation_amends Demo.toDataURL Demo.touch_end
              Demo.two_entries {| image := "one"; strokes := 2%nat |}
              [7%nat] eq_refl eq_refl eq_refl)
    as (s' & Hsave & Hlen & Hpos & _ & _ & Hentry & _ & Hnew & _).
  exists s'. auto 10.
Defined.

Lemma undo_redo_steps_witness :
  cursor_inv Demo.three_entries
  /\ (exists s', undo Demo.three_entries = Normal s'
                 /\ stpos s' = 0
                 /\ stack s' = stack Demo.three_entries)
  /\ (exists s', redo Demo.three_entries = Normal s'
                 /\ stpos s' = 2
                 /\ stack s' = stack Demo.three_entries).
Proof.
  assert (Hc : cursor_inv Demo.three_entries) by by_decide.
  split; [exact Hc|].
  destruct (undo_redo_steps Demo.three_entries Hc)
    as (_ & _ & Hundo & Hredo).
  split; [apply Hundo|apply Hredo]; simpl; lia.
Defined.

Lemma undo_redo_round_trip_witness :
  1 <= stpos Demo.three_entries
    <= Z.of_nat (length (stack Demo.three_entries)) - 2
  /\ exists s1 s2,
       undo Demo.three_entries = Normal s1
       /\ redo s1 = Normal s2
       /\ stpos s2 = 1
       /\ stack s2 = stack Demo.three_entries.
Proof.
  assert (H : 1 <= stpos Demo.three_entries
                <= Z.of_nat (length (stack Demo.three_entries)) - 2)
    by (simpl; lia).
  split; [exact H|].
  destruct (undo_redo_round_trip Demo.three_entries H)
    as (s1 & s2 & Hu & Hr & Hpos & Hstack & _).
  exists s1, s2. auto.
Defined.

Lemma clear_reseeds_history_witness :
  heap Demo.three_entries !! data_strokes (data Demo.three_entries)
    = Some [7%nat]
  /\ exists s',
       Demo.callbacks_clear Demo.three_entries = Normal s'
       /\ stack s' = [{| image := "one"; strokes := 4%nat |}]
       /\ stpos s' = 0
       /\ heap s' !! 4%nat = Some [7%nat].
Proof.
  split; [reflexivity|].
  destruct (clear_reseeds_history Demo.toDataURL Demo.three_entries
              [7%nat] eq_refl)
    as (s' & Hclear & Hstack & _ & Hpos & _ & Hnew & _).
  exists s'. auto.
Defined.

Lemma save_keeps_entries_witness :
  (is_continuation Demo.mouse_up = false
   /\ stack Demo.three_entries !! 2%nat
      = Some {| image := "two"; strokes := 3%nat |})
  /\ stack (state_of (Demo.save Demo.mouse_up Demo.three_entries)) !! 2%nat
     = Some {| image := "two"; strokes := 3%nat |}
  /\ heap (state_of (Demo.save Demo.mouse_up Demo.three_entries)) !! 3%nat
     = Some [7%nat; 8%nat].
Proof.
  split; [by split|].
  destruct (save_keeps_entries Demo.toDataURL Demo.mouse_up
              Demo.three_entries eq_refl 2%nat
              {| image := "two"; strokes := 3%nat |} eq_refl)
    as [Hentry Hheap].
  split; [exact Hentry|]. by apply Hheap.
Defined.

(** C9 fails on the code as it is written: the restoration of a moving
    [undo] can complete after a [redo].  The canvas then shows the image
    of the entry [undo] moved to (the first), but [data.strokes] is a
    copy of the strokes of the second entry, on which the cursor is by
    then. *)
Lemma interleaved_restore_mixes_entries :
  let s1 := Demo.run [OpUndo] Demo.two_entries in
  let s2 := Demo.run [OpRedo] s1 in
  let s3 := Demo.run [OpOnload 0%nat] s2 in
  (stpos s1 = 0
   /\ js_index (stack s1) (stpos s1)
      = Some {| image := "blank"; strokes := 1%nat |}
   /\ pending s2 !! 0%nat = Some "blank")
  /\ canvas (data s3) = "blank"
  /\ heap s3 !! data_strokes (data s3) = Some [7%nat]
  /\ heap s3 !! 1%nat = Some []
  /\ ~ restored Demo.clear Demo.drawImage s2
        {| image := "blank"; strokes := 1%nat |} s3.
Proof.
  split; [by vm_compute|]. split; [reflexivity|].
  split; [reflexivity|]. split; [reflexivity|].
  intros (_ & _ & _ & Hcopy & _). vm_compute in Hcopy. discriminate.
Qed.

Lemma restore_copies_entry_under_cursor_witness :
  (pending (Demo.run [OpUndo; OpSave Demo.touch_end] Demo.three_entries)
     !! 0%nat = Some "blank"
   /\ cursor_inv Demo.three_entries /\ heap_inv Demo.three_entries)
  /\ (exists s',
        Demo.onload 0%nat
          (Demo.run [OpUndo; OpSave Demo.touch_end] Demo.three_entries)
          = Normal s'
        /\ canvas (data s') = "blank"
        /\ data_strokes (data s') <> 4%nat
        /\ heap s' !! data_strokes (data s') = Some [7%nat])
  /\ (exists s1 s2,
        undo Demo.three_entries = Normal s1
        /\ Demo.onload 0%nat s1 = Normal s2
        /\ stpos s2 = 0
        /\ heap s2 !! data_strokes (data s2) = Some [])
  /\ (exists s1 s2,
        redo Demo.three_entries = Normal s1
        /\ Demo.onload 0%nat s1 = Normal s2
        /\ stpos s2 = 2
        /\ heap s2 !! data_strokes (data s2) = Some [7%nat; 8%nat]).
Proof.
  assert (Hc : cursor_inv Demo.three_entries) by by_decide.
  assert (Hh : heap_inv Demo.three_entries) by by_decide.
  split; [auto|].
  destruct (restore_copies_entry_under_cursor (Stroke := nat) Demo.clear Demo.drawImage)
    as [Hany Hnav].
  split.
  { destruct (Hany 0%nat
                (Demo.run [OpUndo; OpSave Demo.touch_end] Demo.three_entries)
                {| image := "blank"; strokes := 4%nat |} [7%nat]
                eq_refl eq_refl eq_refl)
      as (s' & Hload & (Hcanvas & _ & Hne & _) & Hcopy & _).
    exists s'. auto. }
  destruct (Hnav Demo.three_entries Hc Hh) as [Hundo Hredo].
  split.
  - destruct Hundo as (e & xs & s1 & s2 & H1 & _ & He & _ & Hxs & H2 & _
                       & Hcopy & _ & Hpos); [reflexivity|].
    exists s1, s2. repeat split; try assumption.
    rewrite Hcopy, <- Hxs.
    vm_compute in H1. injection H1 as <-.
    vm_compute in He. by injection He as <-.
  - destruct Hredo as (e & xs & s1 & s2 & H1 & _ & He & _ & Hxs & H2 & _
                       & Hcopy & _ & Hpos); [reflexivity|].
    exists s1, s2. repeat split; try assumption.
    rewrite Hcopy, <- Hxs.
    vm_compute in H1. injection H1 as <-.
    vm_compute in He. by injection He as <-.
Defined.

End Runs.

(** * Concrete runs of the further properties *)

Section MoreRuns.

Local Open Scope string_scope.

Lemma navigation_round_trips_witness :
  cursor_inv Demo.two_entries
  /\ exists s1 s2,
       undo Demo.two_entries = Normal s1
       /\ redo s1 = Normal s2
       /\ stpos s2 = 1
       /\ stack s2 = stack Demo.two_entries.
Proof.
  assert (Hc : cursor_inv Demo.two_entries) by by_decide.
  split; [exact Hc|].
  destruct (navigation_round_trips Demo.two_entries Hc) as [Hback _].
  destruct Hback as (s1 & s2 & H1 & H2 & Hpos & Hstack & _); [reflexivity|].
  exists s1, s2. auto.
Defined.

Lemma saves_count_captures_witness :
  is_Some ([ [] : list nat ] !! data_strokes DemoPlugin.blank)
  /\ length (stack (Demo.run
                      (map OpSave [Demo.touch_end; Demo.mouse_up;
                                   Demo.touch_end; None])
                      (MementoCanvas DemoPlugin.blank [ [] ])))
     = 2%nat
  /\ (exists s',
        Demo.save Demo.touch_end
          (Demo.run (map OpSave [Demo.touch_end])
             (MementoCanvas DemoPlugin.blank [ [] ]))
        = TypeError s'
        /\ stack s' = [])
  /\ (exists s',
        Demo.save Demo.touch_end
          (Demo.run (map OpSave [Demo.touch_end; Demo.mouse_up])
             (MementoCanvas DemoPlugin.blank [ [] ]))
        = Normal s').
Proof.
  assert (H : is_Some ([ [] : list nat ] !! data_strokes DemoPlugin.blank))
    by (by exists []).
  split; [exact H|]. split; [|split].
  - apply (saves_count_captures Demo.toDataURL Demo.clear Demo.drawImage
             DemoPlugin.blank [ [] ]
             [Demo.touch_end; Demo.mouse_up; Demo.touch_end; None] H).
  - destruct (saves_count_captures Demo.toDataURL Demo.clear Demo.drawImage
                DemoPlugin.blank [ [] ] [Demo.touch_end] H)
      as (_ & _ & Hnext).
    destruct (Hnext Demo.touch_end) as (s' & Hthrow & Hstack & _).
    exists s'. auto.
  - destruct (saves_count_captures Demo.toDataURL Demo.clear Demo.drawImage
                DemoPlugin.blank [ [] ] [Demo.touch_end; Demo.mouse_up] H)
      as (_ & _ & Hnext).
    exact (Hnext Demo.touch_end).
Defined.

Lemma arrays_never_written_witness :
  heap Demo.two_entries !! 0%nat = Some [7%nat]
  /\ heap (Demo.run [OpUndo; OpOnload 0%nat; OpMouseup Demo.touch_end;
                     OpClear]
             Demo.two_entries) !! 0%nat
     = Some [7%nat].
Proof.
  split; [reflexivity|].
  by apply (arrays_never_written Demo.toDataURL Demo.clear Demo.drawImage).
Defined.

Lemma references_stay_allocated_witness :
  heap_inv Demo.three_entries
  /\ heap_inv (Demo.run [OpRedo; OpOnload 0%nat; OpReset;
                         OpMouseup Demo.touch_end]
                 Demo.three_entries).
Proof.
  assert (Hh : heap_inv Demo.three_entries) by by_decide.
  split; [exact Hh|].
  by apply (references_stay_allocated Demo.toDataURL Demo.clear
              Demo.drawImage).
Defined.

Lemma no_exception_while_attached_witness :
  (cursor_inv Demo.two_entries /\ heap_inv Demo.two_entries
   /\ stack Demo.two_entries <> [])
  /\ exists s',
       steps Demo.toDataURL Demo.clear Demo.drawImage
         [OpUndo; OpMouseup Demo.touch_end; OpClear; OpOnload 0%nat;
          OpKey {| ctrlKey := true; shiftKey := false; which := 26 |}]
         Demo.two_entries
       = Normal s'
       /\ stack s' <> [].
Proof.
  assert (Hc : cursor_inv Demo.two_entries) by by_decide.
  assert (Hh : heap_inv Demo.two_entries) by by_decide.
  assert (Hne : stack Demo.two_entries <> []) by discriminate.
  split; [auto|].
  destruct (no_exception_while_attached Demo.toDataURL Demo.clear
              Demo.drawImage
              [OpUndo; OpMouseup Demo.touch_end; OpClear; OpOnload 0%nat;
               OpKey {| ctrlKey := true; shiftKey := false; which := 26 |}]
              Demo.two_entries Hc Hh Hne eq_refl)
    as (s' & Hsteps & _ & _ & _ & Hne').
  exists s'. auto.
Defined.

Lemma load_after_reset_repaints_witness :
  pending DemoPlugin.loading !! 0%nat = Some "blank"
  /\ exists s1 s2,
       reset DemoPlugin.loading = Normal s1
       /\ Demo.onload 0%nat s1 = TypeError s2
       /\ canvas (data s2) = "blank"
       /\ stack s2 = [].
Proof.
  split; [reflexivity|].
  destruct (load_after_reset_repaints Demo.clear Demo.drawImage 0%nat
              "blank" DemoPlugin.loading eq_refl)
    as (s1 & s2 & H1 & H2 & Hcanvas & _ & _ & Hstack & _).
  exists s1, s2. auto.
Defined.


Lemma history_append_only_witness :
  stack Demo.two_entries !! 1%nat
    = Some {| image := "one"; strokes := 2%nat |}
  /\ exists e',
       stack (Demo.run [OpUndo; OpMouseup Demo.mouse_up;
                        OpMouseup Demo.touch_end]
                Demo.two_entries) !! 1%nat
       = Some e'
       /\ image e' = "one".
Proof.
  split; [reflexivity|].
  by apply (history_append_only Demo.toDataURL Demo.clear Demo.drawImage
              [OpUndo; OpMouseup Demo.mouse_up; OpMouseup Demo.touch_end]
              Demo.two_entries 1%nat
              {| image := "one"; strokes := 2%nat |}).
Defined.

Lemma save_copies_strokes_witness :
  Demo.save Demo.mouse_up Demo.two_entries
    = Normal (state_of (Demo.save Demo.mouse_up Demo.two_entries))
  /\ exists e,
       stack (state_of (Demo.save Demo.mouse_up Demo.two_entries)) !! 2%nat
       = Some e
       /\ heap (state_of (Demo.save Demo.mouse_up Demo.two_entries))
            !! strokes e
          = Some [7%nat].
Proof.
  split; [reflexivity|].
  destruct (save_copies_strokes Demo.toDataURL Demo.mouse_up
              Demo.two_entries
              (state_of (Demo.save Demo.mouse_up Demo.two_entries))
              eq_refl)
    as (i & e & xs & -> & He & Hxs & _ & Hcopy & _).
  exists e. split; [exact He|].
  rewrite Hcopy, <- Hxs. reflexivity.
Defined.

Lemma capture_restore_round_trip_witness :
  (is_continuation Demo.mouse_up = false
   /\ heap Demo.two_entries !! data_strokes (data Demo.two_entries)
      = Some [7%nat]
   /\ stack Demo.two_entries <> []
   /\ stpos Demo.two_entries
      = Z.of_nat (length (stack Demo.two_entries)) - 1)
  /\ exists s1 s2,
       Demo.save Demo.mouse_up Demo.two_entries = Normal s1
       /\ canvas (data s2) = "one"
       /\ heap s2 !! data_strokes (data s2) = Some [7%nat].
Proof.
  assert (Hne : stack Demo.two_entries <> []) by discriminate.
  split; [by repeat split|].
  destruct (capture_restore_round_trip Demo.toDataURL Demo.clear
              Demo.drawImage Demo.mouse_up Demo.two_entries [7%nat]
              "scribble" 9%nat eq_refl eq_refl Hne eq_refl)
    as (s1 & s2 & H1 & _ & Hcanvas & Hxs & _).
  exists s1, s2. auto.
Defined.

Lemma override_without_events_witness :
  (options_events DemoPlugin.bare_options = None
   /\ props DemoPlugin.bare_options !! String.append "mouseup" "$bound"
      <> Some true)
  /\ exists o',
       override Demo.toDataURL "mouseup" DemoPlugin.bare_options = Thrown o'
       /\ options_events o' = None
       /\ override Demo.toDataURL "mouseup" o' = Returned o'.
Proof.
  assert (Hflag : props DemoPlugin.bare_options
                    !! String.append "mouseup" "$bound" <> Some true).
  { simpl. rewrite lookup_empty. discriminate. }
  split; [by split|].
  destruct (override_without_events Demo.toDataURL "mouseup"
              DemoPlugin.bare_options eq_refl Hflag)
    as (o' & Hthrow & _ & Hev & Hagain).
  exists o'. auto.
Defined.

Lemma override_wraps_clear_witness :
  (props DemoPlugin.user_options !! String.append "clear" "$bound"
     <> Some true
   /\ options_events DemoPlugin.user_options
      = Some {[ "clear" := VFunction DemoPlugin.user_clear ]})
  /\ exists o' evs' (f : handler),
       override Demo.toDataURL "clear" DemoPlugin.user_options = Returned o'
       /\ options_events o' = Some evs'
       /\ evs' !! "clear" = Some (VFunction f)
       /\ exists s2,
            f None Demo.three_entries = Normal s2
            /\ stack s2 = [{| image := "one"; strokes := 4%nat |}]
            /\ stpos s2 = 0.
Proof.
  assert (Hflag : props DemoPlugin.user_options
                    !! String.append "clear" "$bound" <> Some true).
  { simpl. rewrite lookup_empty. discriminate. }
  split; [by split|].
  destruct (override_wraps_clear Demo.toDataURL DemoPlugin.user_options
              {[ "clear" := VFunction DemoPlugin.user_clear ]}
              DemoPlugin.user_clear eq_refl Hflag
              (lookup_singleton_eq _ _))
    as (o' & evs' & f & Hret & Hev & Hf & _ & _ & Hrun).
  exists o', evs', f. split; [exact Hret|]. split; [exact Hev|].
  split; [exact Hf|].
  destruct (Hrun None Demo.three_entries Demo.three_entries [7%nat]
              eq_refl eq_refl)
    as (s2 & Hs2 & Hstack & Hpos & _).
  exists s2. auto.
Defined.


Lemma plugin_overrides_once_witness :
  exists c1,
    DemoPlugin.plugins_memento DemoPlugin.user_config DemoPlugin.blank [ [] ]
    = Returned c1
    /\ options (outcome_value
                  (DemoPlugin.plugins_memento c1 DemoPlugin.blank [ [] ]))
       = options c1.
Proof.
  assert (Hret : DemoPlugin.plugins_memento DemoPlugin.user_config
                   DemoPlugin.blank [ [] ]
                 = Returned
                     (outcome_value
                        (DemoPlugin.plugins_memento DemoPlugin.user_config
                           DemoPlugin.blank [ [] ])))
    by reflexivity.
  eexists. split; [exact Hret|].
  exact (plugin_overrides_once Demo.toDataURL DemoPlugin.user_config _
           DemoPlugin.blank DemoPlugin.blank [ [] ] [ [] ] Hret).
Defined.

End MoreRuns.
